(** * The article ranking pipeline of [agent_module/agent.py]

    A shallow embedding of the three functions of the fetch pipeline,
    [get_article_content], [fetch_article_content] and
    [fetch_and_filter_articles], and the properties of the specification
    that concern them.

    Conventions of the embedding:
    - Python [str] is [string] (characters are bytes; [lower], [split] and
      [strip] are the ASCII fragments of the Python methods);
    - Python [int] is [Z]; [len] and [str.count] produce naturals;
    - [time.time()] and [time.mktime] are floats in the source and
      rationals here;
    - everything the code obtains from the network, the clock or the thread
      pool is a field of a [World] record or an explicit argument;
    - a Python exception that escapes a function is the [Raise] result;
    - the fields of a feed entry have the types the code expects (a title
      and a link are strings), and [time.mktime] succeeds on every date of
      a feed. *)

From Stdlib Require Import ZArith QArith Lqa Ascii String List Lia Permutation Sorting.Sorted.
From stdpp Require Import base tactics option list sorting strings gmap.

Local Open Scope string_scope.
Local Open Scope list_scope.
Local Open Scope Z_scope.

(** ** Python strings *)

Module PyStr.

(** [c.lower()] for one ASCII character. *)
Definition lower_ascii (c : ascii) : ascii :=
  let n := nat_of_ascii c in
  if (Nat.leb 65 n && Nat.leb n 90)%bool then ascii_of_nat (n + 32) else c.

(** [s.lower()] *)
Fixpoint lower (s : string) : string :=
  match s with
  | EmptyString => EmptyString
  | String c s' => String (lower_ascii c) (lower s')
  end.

(** [c.isspace()]: the characters [str.split()] and [str.strip()] treat
    as white space in the ASCII range (TAB, LF, VT, FF, CR, FS, GS, RS,
    US and the blank). *)
Definition isspace (c : ascii) : bool :=
  let n := nat_of_ascii c in
  ((Nat.leb 9 n && Nat.leb n 13) || (Nat.leb 28 n && Nat.leb n 32))%bool.

(** [s.startswith(p)] *)
Fixpoint startswith (p s : string) : bool :=
  match p, s with
  | EmptyString, _ => true
  | String _ _, EmptyString => false
  | String a p', String b s' => if Ascii.eqb a b then startswith p' s' else false
  end.

(** The scan of [s.count(sub)] for a non-empty [sub]: occurrences are
    counted from the left and do not overlap; [skip] is the number of
    characters still covered by the occurrence found last. *)
Fixpoint count_scan (sub s : string) (skip : nat) : nat :=
  match s with
  | EmptyString => 0
  | String _ s' =>
      match skip with
      | S k => count_scan sub s' k
      | O => if startswith sub s
             then S (count_scan sub s' (String.length sub - 1))
             else count_scan sub s' 0
      end
  end%nat.

(** [s.count(sub)]; the empty [sub] occurs [len(s) + 1] times. *)
Definition count (s sub : string) : nat :=
  match sub with
  | EmptyString => S (String.length s)
  | _ => count_scan sub s 0
  end.

(** [s.split()]: the maximal runs of non-white-space characters. [cur] is
    the run being read, in reverse. *)
Definition string_of_rev (cs : list ascii) : string :=
  string_of_list_ascii (rev cs).

Fixpoint split_scan (s : string) (cur : list ascii) : list string :=
  match s with
  | EmptyString =>
      match cur with
      | [] => []
      | _ => [string_of_rev cur]
      end
  | String c s' =>
      if isspace c
      then match cur with
           | [] => split_scan s' []
           | _ => string_of_rev cur :: split_scan s' []
           end
      else split_scan s' (c :: cur)
  end.

Definition split (s : string) : list string := split_scan s [].

(** [sep.join(parts)] *)
Fixpoint join (sep : string) (parts : list string) : string :=
  match parts with
  | [] => EmptyString
  | [p] => p
  | p :: rest => p +:+ sep +:+ join sep rest
  end.

(** [s.strip()] *)
Fixpoint lstrip (s : string) : string :=
  match s with
  | EmptyString => EmptyString
  | String c s' => if isspace c then lstrip s' else s
  end.

Definition string_rev (s : string) : string :=
  string_of_list_ascii (rev (list_ascii_of_string s)).

Definition strip (s : string) : string :=
  string_rev (lstrip (string_rev (lstrip s))).

(** Truth value of a string: [bool(s)]. *)
Definition truthy (s : string) : bool :=
  match s with
  | EmptyString => false
  | _ => true
  end.

End PyStr.

(** ** Exceptions *)

Inductive exn : Set :=
| TypeError        (* an ordering comparison between unorderable values *)
| RetrievalError.  (* any exception of a download or of a parser *)

Inductive result (A : Type) : Type :=
| Ok (a : A)
| Raise (e : exn).
Arguments Ok {A} a.
Arguments Raise {A} e.

(** Sequencing: an exception ends the computation. *)
Global Instance result_bind : MBind result := fun A B k r =>
  match r with
  | Ok a => k a
  | Raise e => Raise e
  end.

Global Instance result_fmap : FMap result := fun A B f r =>
  match r with
  | Ok a => Ok (f a)
  | Raise e => Raise e
  end.

(** ** Data model *)

(** [time.struct_time]: a named tuple of nine integers; it is ordered and
    compared for equality as that tuple. *)
Record struct_time : Set := mk_struct_time {
  tm_year : Z; tm_mon : Z; tm_mday : Z;
  tm_hour : Z; tm_min : Z; tm_sec : Z;
  tm_wday : Z; tm_yday : Z; tm_isdst : Z
}.

Definition tm_tuple (t : struct_time) : list Z :=
  [tm_year t; tm_mon t; tm_mday t; tm_hour t; tm_min t; tm_sec t;
   tm_wday t; tm_yday t; tm_isdst t].

(** A value found in a feed entry's [content] list, known by its [str()]. *)
Inductive py_item : Set :=
| PStr (s : string)
| PObj (repr : string).

Definition py_str (v : py_item) : string :=
  match v with
  | PStr s => s
  | PObj r => r
  end.

(** The [content] field of a feed entry: a string, a list, or any other
    object (known by its [str()]). *)
Inductive content_value : Set :=
| CText (s : string)
| CFragments (items : list py_item)
| COther (repr : string).

(** A feed entry is a dictionary; a field is [None] when the key is absent.
    The two date fields may be present and hold Python's [None] (the inner
    option). *)
Record FeedEntry : Set := mk_entry {
  entry_title : option string;
  entry_content : option content_value;
  entry_link : option string;
  published_parsed : option (option struct_time);
  updated_parsed : option (option struct_time)
}.

Record MatchDetails : Set := mk_details {
  title_matches : Z;
  content_matches : Z;
  recency_bonus : Z
}.

(** The dictionary built by [fetch_article_content]. *)
Record ScoredArticle : Set := mk_article {
  title : string;
  content : string;
  link : string;
  publish_date : option struct_time;
  relevance_score : Z;
  match_details : MatchDetails
}.

(** An element of the list returned by [fetch_and_filter_articles]. *)
Inductive OutputRecord : Set :=
| Article (a : ScoredArticle)
| Message (message : string).

(** A downloaded page as [get_article_content] sees it once the unwanted
    tags are decomposed: for a selector, the text
    [get_text(separator='\n', strip=True)] of the first element it selects,
    and the [get_text()] of every [<p>] element. *)
Record Page : Type := mk_page {
  select_one_text : string -> option string;
  paragraphs : list string
}.

(** Everything outside the program. *)
Record World : Type := mk_world {
  feedparser_parse : string -> result (list FeedEntry);
  newspaper_text : string -> result string;   (* download, parse, [article.text] *)
  requests_get : string -> result Page;
  time_time : string -> Q;    (* the clock as read by the task of a link *)
  time_mktime : struct_time -> Q
}.

(** ** [get_article_content] *)

Definition dquote : string := String "034"%char EmptyString.

Definition selectors : list string :=
  ["article"; ".article-content"; ".story-content";
   "[role=" +:+ dquote +:+ "main" +:+ dquote +:+ "]"; ".main-content"; "#main-content";
   ".post-content"; ".entry-content"].

Definition substantial (s : string) : bool :=
  (100 <? String.length s)%nat.

(** The loop over the selectors: the first selected text longer than 100
    characters is returned. *)
Fixpoint try_selectors (page : Page) (sels : list string) : option string :=
  match sels with
  | [] => None
  | selector :: rest =>
      match select_one_text page selector with
      | Some article_content =>
          if substantial article_content then Some article_content
          else try_selectors page rest
      | None => try_selectors page rest
      end
  end.

(** The last resort: the stripped paragraphs joined by newlines. *)
Definition paragraph_text (page : Page) : string :=
  PyStr.join (String "010"%char EmptyString) (map PyStr.strip (paragraphs page)).

(** Methods 2 and 3, on a page already downloaded; [None] when the end of
    the [try] block is reached without a [return]. *)
Definition scrape (page : Page) : option string :=
  match try_selectors page selectors with
  | Some article_content => Some article_content
  | None =>
      let content := paragraph_text page in
      if (PyStr.truthy content && substantial content)%bool then Some content
      else None
  end.

(** The fallback chain entered when method 1 gives no substantial text. *)
Definition fallback (w : World) (url : string) : result (option string) :=
  page ← requests_get w url;
  Ok (scrape page).

(** The body of the [try] block. *)
Definition get_article_content_try (w : World) (url : string)
  : result (option string) :=
  content ← newspaper_text w url;
  if (PyStr.truthy content && substantial content)%bool then Ok (Some content)
  else fallback w url.

(** [except Exception] swallows every exception, and the function ends in
    [return ""]. *)
Definition get_article_content (w : World) (url : string) : string :=
  match get_article_content_try w url with
  | Ok (Some content) => content
  | Ok None => ""
  | Raise _ => ""
  end.

(** ** [fetch_article_content] *)

(** [d.get(key)] and [d.get(key, default)] on a field of a dictionary. *)
Definition dict_get {A : Type} (field : option (option A)) : option A :=
  match field with
  | Some v => v
  | None => None
  end.

Definition dict_get_default {A : Type} (field : option A) (default : A) : A :=
  match field with
  | Some v => v
  | None => default
  end.

(** [a or b] on two values that are [None] or a (truthy) [struct_time]. *)
Definition py_or {A : Type} (a b : option A) : option A :=
  match a with
  | Some _ => a
  | None => b
  end.

Definition initial_content_of (field : option content_value) : string :=
  match dict_get_default field (CText "") with
  | CText s => s
  | CFragments items => PyStr.join " " (map py_str items)
  | COther repr => repr
  end.

Definition entry_publish_date (entry : FeedEntry) : option struct_time :=
  py_or (dict_get (published_parsed entry)) (dict_get (updated_parsed entry)).

Definition Qltb (a b : Q) : bool :=
  match Qcompare a b with
  | Lt => true
  | _ => false
  end.

Definition age_hours (w : World) (link : string) (publish_date : struct_time) : Q :=
  ((time_time w link - time_mktime w publish_date) / inject_Z 3600)%Q.

Definition recency_of (w : World) (link : string) (publish_date : option struct_time) : Z :=
  match publish_date with
  | Some d =>
      if Qltb (age_hours w link d) (inject_Z 24) then 5
      else if Qltb (age_hours w link d) (inject_Z 168) then 3
      else 0
  | None => 0
  end.

(** The two scoring loops. *)
Definition title_score_of (title_lower : string) (keywords : list string) : Z :=
  fold_left (fun title_score keyword =>
               title_score + Z.of_nat (PyStr.count title_lower keyword) * 10)
            keywords 0.

Definition content_score_of (content_lower : string) (keywords : list string) : Z :=
  fold_left (fun content_score keyword =>
               content_score + Z.of_nat (PyStr.count content_lower keyword))
            keywords 0.

Definition final_content_of (w : World) (link : string) (initial_content : string) : string :=
  let final_content := get_article_content w link in
  if PyStr.truthy final_content then final_content else initial_content.

Definition fetch_article_content (w : World) (entry : FeedEntry)
           (keywords : list string) : option ScoredArticle :=
  let title := dict_get_default (entry_title entry) "" in
  let initial_content := initial_content_of (entry_content entry) in
  let publish_date := entry_publish_date entry in
  match entry_link entry with
  | None => None
  | Some link =>
      if negb (PyStr.truthy link) then None
      else
        let title_score := title_score_of (PyStr.lower title) keywords in
        let final_content := final_content_of w link initial_content in
        let content_score := content_score_of (PyStr.lower final_content) keywords in
        let recency_score := recency_of w link publish_date in
        let total_score := title_score + content_score + recency_score in
        if 0 <? total_score
        then Some {| title := title;
                     content := final_content;
                     link := link;
                     publish_date := publish_date;
                     relevance_score := total_score;
                     match_details :=
                       {| title_matches := title_score / 10;
                          content_matches := content_score;
                          recency_bonus := recency_score |} |}
        else None
  end.

(** ** Python's ordering comparisons and [sorted] *)

(** [a < b] on two tuples of integers: lexicographic, a proper prefix is
    smaller. *)
Fixpoint tuple_lt (a b : list Z) : bool :=
  match a, b with
  | [], [] => false
  | [], _ :: _ => true
  | _ :: _, [] => false
  | x :: a', y :: b' => if x =? y then tuple_lt a' b' else x <? y
  end.

(** [a == b] on two values that are [None] or a [struct_time]. *)
Definition date_eqb (a b : option struct_time) : bool :=
  match a, b with
  | None, None => true
  | Some x, Some y => bool_decide (tm_tuple x = tm_tuple y)
  | _, _ => false
  end.

(** [a < b] on two values that are [None] or a [struct_time]: [None] is not
    ordered, neither against a [struct_time] nor against [None]. *)
Definition date_lt (a b : option struct_time) : result bool :=
  match a, b with
  | Some x, Some y => Ok (tuple_lt (tm_tuple x) (tm_tuple y))
  | _, _ => Raise TypeError
  end.

(** [False < True] *)
Definition bool_lt (a b : bool) : bool := (negb a && b)%bool.

(** [k1 < k2] on the triples of the final sort: the first position where
    the triples differ (by [==]) decides, by [<] at that position. *)
Definition SortKey : Set := (Z * option struct_time * bool)%type.

Definition key_lt (k1 k2 : SortKey) : result bool :=
  let '(s1, d1, p1) := k1 in
  let '(s2, d2, p2) := k2 in
  if negb (s1 =? s2) then Ok (s1 <? s2)
  else if negb (date_eqb d1 d2) then date_lt d1 d2
  else if negb (Bool.eqb p1 p2) then Ok (bool_lt p1 p2)
  else Ok false.

(** [list.sort] and [sorted]. The lists of this program have at most 30
    elements, which CPython sorts by a stable insertion sort that only asks
    [pivot < y]: each element, from left to right, goes in front of the
    first element it is smaller than, and an exception of a comparison ends
    the sort. CPython finds the place by bisection, the scan below is
    linear; for the two orders of this program neither the result nor the
    fact that an exception is raised depends on which pairs are asked
    ([sort_reverse_ok], [sort_reverse_order_independent]). *)
Section PySort.
Context {A : Type} (lt : A -> A -> result bool).

Fixpoint insert_sorted (pivot : A) (sorted : list A) : result (list A) :=
  match sorted with
  | [] => Ok [pivot]
  | y :: rest =>
      b ← lt pivot y;
      if b : bool then Ok (pivot :: sorted)
      else fmap (M:=result) (cons y) (insert_sorted pivot rest)
  end.

Definition sort_step (acc : result (list A)) (pivot : A) : result (list A) :=
  sorted ← acc; insert_sorted pivot sorted.

Definition sort_asc (l : list A) : result (list A) :=
  fold_left sort_step l (Ok []).

(** [reverse=True]: the list is reversed, sorted, and reversed again,
    which keeps the order of equal elements. *)
Definition sort_reverse (l : list A) : result (list A) :=
  fmap (M:=result) (@rev A) (sort_asc (rev l)).
End PySort.

(** [sorted(l, key=key, reverse=True)] *)
Definition sorted_reverse {A K : Type} (key : A -> K)
           (lt : K -> K -> result bool) (l : list A) : result (list A) :=
  sort_reverse (fun x y => lt (key x) (key y)) l.

(** ** [fetch_and_filter_articles] *)

Definition feed_urls : list string :=
  ["https://rss.nytimes.com/services/xml/rss/nyt/Science.xml";
   "https://feeds.bbci.co.uk/news/science_and_environment/rss.xml"].

Definition max_articles_per_feed : nat := 15.
Definition max_results : nat := 10.

(** The key of the per-feed sort:
    [x.get('published_parsed', x.get('updated_parsed'))]. *)
Definition entry_sort_key (x : FeedEntry) : option struct_time :=
  dict_get_default (published_parsed x) (dict_get (updated_parsed x)).

(** The body of the [try] block of one feed: parse, slice, sort. *)
Definition feed_entries (w : World) (url : string) : result (list FeedEntry) :=
  feed ← feedparser_parse w url;
  sorted_reverse entry_sort_key date_lt (take max_articles_per_feed feed).

(** The state of the scheduling loop: the set of links seen and the tasks
    submitted so far, in submission order (a task is the entry it was
    submitted with). *)
Record PoolState : Type := mk_pool {
  seen_links : gset string;
  futures : list FeedEntry
}.

Definition submit_entry (st : PoolState) (entry : FeedEntry) : PoolState :=
  match entry_link entry with
  | None => st
  | Some link =>
      if (negb (PyStr.truthy link) || bool_decide (link ∈ seen_links st))%bool
      then st
      else {| seen_links := {[link]} ∪ seen_links st;
              futures := futures st ++ [entry] |}
  end.

(** One turn of [for url in feed_urls]; [except Exception: continue]. *)
Definition visit_feed (w : World) (st : PoolState) (url : string) : PoolState :=
  match feed_entries w url with
  | Ok entries => fold_left submit_entry entries st
  | Raise _ => st
  end.

Definition schedule (w : World) (urls : list string) : PoolState :=
  fold_left (visit_feed w) urls {| seen_links := ∅; futures := [] |}.

(** The entries submitted to the pool. *)
Definition submitted (w : World) : list FeedEntry :=
  futures (schedule w feed_urls).

(** [as_completed]: the futures come back in the order in which the tasks
    finish, which is some rearrangement of the submission order. *)
Record Completion : Type := mk_completion {
  as_completed : list (option ScoredArticle) -> list (option ScoredArticle);
  as_completed_perm : forall l, as_completed l ≡ₚ l
}.

(** The key of the final sort; an article has no ['is_primary_source']. *)
Definition article_sort_key (x : ScoredArticle) : SortKey :=
  (relevance_score x, publish_date x, false).

Definition no_articles_message (query : string) : string :=
  "No articles found containing the query '" +:+ query +:+ "'.".

(** What follows the [with] block. *)
Definition rank (query : string) (matched_articles : list ScoredArticle)
  : result (list OutputRecord) :=
  match matched_articles with
  | [] => Ok [Message (no_articles_message query)]
  | _ =>
      sorted ← sorted_reverse article_sort_key key_lt matched_articles;
      Ok (Article <$> take max_results sorted)
  end.

Definition fetch_and_filter_articles (w : World) (c : Completion)
           (query : string) : result (list OutputRecord) :=
  let query_lower := PyStr.lower query in
  let keywords := PyStr.split query_lower in
  let results :=
    as_completed c
      ((fun entry => fetch_article_content w entry keywords) <$> submitted w) in
  let matched_articles := omap id results in
  rank query matched_articles.

(** ** The words of the specification *)

(** The number of case-insensitive occurrences of a keyword in a text. *)
Definition ci_count (text keyword : string) : Z :=
  Z.of_nat (PyStr.count (PyStr.lower text) (PyStr.lower keyword)).

(** Its sum over the keywords. *)
Definition occurrences (text : string) (keywords : list string) : Z :=
  foldr (fun keyword total => ci_count text keyword + total) 0 keywords.

(** The links of the articles of an output list. *)
Definition output_links (out : list OutputRecord) : list string :=
  omap (fun r => match r with
                 | Article a => Some (link a)
                 | Message _ => None
                 end) out.

(** The window of a feed in the words of the specification: the entries
    sorted by time, latest first, then the 15 first of them. *)
Definition most_recent_window (feed : list FeedEntry) : result (list FeedEntry) :=
  take max_articles_per_feed <$> sorted_reverse entry_sort_key date_lt feed.

(** ** Definitions used by the statements and the proofs *)

Definition is_Ok {A : Type} (r : result A) : Prop := ∃ a, r = Ok a.

(** The insertion sort against a total comparison. *)
Fixpoint pure_insert {A : Type} (ltb : A → A → bool) (pivot : A) (sorted : list A) : list A :=
  match sorted with
  | [] => [pivot]
  | y :: rest =>
      if ltb pivot y then pivot :: sorted else y :: pure_insert ltb pivot rest
  end.

Definition pure_sort {A : Type} (ltb : A → A → bool) (l : list A) : list A :=
  fold_left (fun acc pivot => pure_insert ltb pivot acc) l [].

(** [x] may stand before [y] in an ascending list. *)
Definition ascending {A : Type} (ltb : A → A → bool) : relation A :=
  fun x y => ltb y x = false.

(** [x] may stand before [y] in a list sorted with [reverse=True]: it is
    not smaller. *)
Definition descending {A : Type} (ltb : A → A → bool) : relation A :=
  fun x y => ltb x y = false.

(** Two elements can be ordered. *)
Definition comparable {A : Type} (lt : A → A → result bool) : relation A :=
  fun x y => is_Ok (lt x y) ∧ is_Ok (lt y x).

(** Every two elements at different positions can be ordered. *)
Definition all_comparable {A : Type} (lt : A → A → result bool) (l : list A) : Prop :=
  StronglySorted (comparable lt) l.

(** A total order that contains the order of the dates: [None] first. *)
Definition enc_date (d : option struct_time) : list Z :=
  match d with
  | None => [0]
  | Some t => 1 :: tm_tuple t
  end.

Definition date_ltb (a b : option struct_time) : bool :=
  tuple_lt (enc_date a) (enc_date b).

(** A total order that contains the order of the triples. *)
Definition enc_key (k : SortKey) : list Z :=
  let '(s, d, p) := k in s :: enc_date d ++ [Z.b2z p].

Definition key_ltb (k1 k2 : SortKey) : bool :=
  tuple_lt (enc_key k1) (enc_key k2).

(** The order of the final sort, on articles, and the order of the per-feed
    sort, on entries. *)
Definition article_lt (x y : ScoredArticle) : result bool :=
  key_lt (article_sort_key x) (article_sort_key y).

Definition article_ltb (x y : ScoredArticle) : bool :=
  key_ltb (article_sort_key x) (article_sort_key y).

Definition entry_lt (x y : FeedEntry) : result bool :=
  date_lt (entry_sort_key x) (entry_sort_key y).

Definition entry_ltb (x y : FeedEntry) : bool :=
  date_ltb (entry_sort_key x) (entry_sort_key y).

(** The entries the loop goes through, feed after feed: those of the feeds
    whose [try] block succeeded. *)
Definition feed_candidates (w : World) (url : string) : list FeedEntry :=
  match feed_entries w url with
  | Ok entries => entries
  | Raise _ => []
  end.

Definition candidates (w : World) (urls : list string) : list FeedEntry :=
  flat_map (feed_candidates w) urls.

(** The links of the submitted entries are present, non-empty, in the set
    of seen links, and pairwise different. *)
Definition pool_inv (st : PoolState) : Prop :=
  NoDup (entry_link <$> futures st)
  ∧ ∀ e, e ∈ futures st →
         ∃ l, entry_link e = Some l ∧ PyStr.truthy l = true ∧ l ∈ seen_links st.

(** The articles of the run, in submission order. *)
Definition matched (w : World) (keywords : list string) : list ScoredArticle :=
  omap (fun entry => fetch_article_content w entry keywords) (submitted w).

(** The world in which a feed cannot be parsed. *)
Definition feed_unavailable (w : World) (url : string) : World :=
  {| feedparser_parse := fun u =>
       if String.eqb u url then Raise RetrievalError else feedparser_parse w u;
     newspaper_text := newspaper_text w;
     requests_get := requests_get w;
     time_time := time_time w;
     time_mktime := time_mktime w |}.

(** * Scenarios *)

Module Scenario.

(** A clock for the scenarios: seconds counted from year 0 with years of
    365 days; [time.mktime] and [time.time()] only have to agree on the
    origin. *)
Definition seconds_of (t : struct_time) : Z :=
  tm_year t * 31536000 + tm_yday t * 86400
  + tm_hour t * 3600 + tm_min t * 60 + tm_sec t.

(** Noon of a day of January 2024 (the first was a Monday). *)
Definition day (mday : Z) : struct_time :=
  mk_struct_time 2024 1 mday 12 0 0 ((mday - 1) mod 7) mday 0.

(** Noon of 9 April 2024, the hundredth day of the year: the reading of the
    clock in the scenarios. *)
Definition today : struct_time := mk_struct_time 2024 4 9 12 0 0 1 100 0.

Definition dated_entry (t l : string) (d : struct_time) : FeedEntry :=
  {| entry_title := Some t; entry_content := None; entry_link := Some l;
     published_parsed := Some (Some d); updated_parsed := None |}.

Definition undated_entry (t l : string) : FeedEntry :=
  {| entry_title := Some t; entry_content := None; entry_link := Some l;
     published_parsed := None; updated_parsed := None |}.

Definition nyt : string := "https://rss.nytimes.com/services/xml/rss/nyt/Science.xml".
Definition bbc : string := "https://feeds.bbci.co.uk/news/science_and_environment/rss.xml".

(** A world with the two feeds given, in which no page can be downloaded
    and the clock reads [today]. *)
Definition offline_world (nyt_feed bbc_feed : result (list FeedEntry)) : World :=
  {| feedparser_parse := fun url =>
       if String.eqb url nyt then nyt_feed
       else if String.eqb url bbc then bbc_feed
       else Raise RetrievalError;
     newspaper_text := fun _ => Raise RetrievalError;
     requests_get := fun _ => Raise RetrievalError;
     time_time := fun _ => inject_Z (seconds_of today);
     time_mktime := fun t => inject_Z (seconds_of t) |}.

(** The tasks complete in submission order, or in the opposite order. *)
Definition completion_in_order : Completion :=
  {| as_completed := fun l => l;
     as_completed_perm := fun l => Permutation_refl l |}.

Definition completion_reversed : Completion :=
  {| as_completed := fun l => rev l;
     as_completed_perm := fun l => Permutation_sym (Permutation_rev l) |}.

(** Two feeds with one old entry each, the first without a date. *)
Definition world_mixed : World :=
  offline_world (Ok [undated_entry "Ocean" "a"])
                (Ok [dated_entry "Ocean" "b" (day 1)]).

(** Two feeds that carry the same link. *)
Definition world_duplicate : World :=
  offline_world (Ok [dated_entry "Ocean Warming" "a" (day 1)])
                (Ok [dated_entry "Ocean warming again" "a" (day 2);
                     dated_entry "Ocean" "b" (day 1)]).

(** No feed can be parsed. *)
Definition world_down : World :=
  offline_world (Raise RetrievalError) (Raise RetrievalError).

(** A feed listed oldest first, with sixteen entries. *)
Definition numbered_entry (n : nat) : FeedEntry :=
  dated_entry "Ocean" (String (ascii_of_nat (65 + n)) EmptyString) (day (Z.of_nat n)).

Definition feed_sixteen : list FeedEntry := numbered_entry <$> seq 1 16.

Definition world_sixteen : World :=
  offline_world (Ok feed_sixteen) (Raise RetrievalError).




(** One entry published two hours before the clock reading. *)
Definition recent_entry : FeedEntry :=
  dated_entry "Budget vote" "n" (mk_struct_time 2024 4 9 10 0 0 1 100 0).

Definition world_recent : World :=
  offline_world (Ok [recent_entry]) (Ok []).

(** A feed with an entry without dates before an entry with one. *)
Definition world_undated : World :=
  offline_world (Ok [undated_entry "Ocean" "a"; dated_entry "Ocean" "b" (day 1)])
                (Ok [dated_entry "Ocean" "c" (day 2)]).





End Scenario.

(** ** Definitions for the further properties of the pipeline *)

(** The articles of an output list. *)
Definition output_articles (out : list OutputRecord) : list ScoredArticle :=
  omap (fun r => match r with
                 | Article a => Some a
                 | Message _ => None
                 end) out.

(** [a] is not older than [b], for two dates of articles that the final
    sort can order. *)
Definition not_older (a b : option struct_time) : Prop :=
  match a, b with
  | Some x, Some y => tuple_lt (tm_tuple x) (tm_tuple y) = false
  | None, None => True
  | _, _ => False
  end.

(** The age of an article in seconds when its task reads the clock. *)
Definition age_seconds (w : World) (l : string) (d : struct_time) : Q :=
  (time_time w l - time_mktime w d)%Q.

(** Every seen link is the link of a task. *)
Definition seen_exact (st : PoolState) : Prop :=
  ∀ l, l ∈ seen_links st → ∃ e, e ∈ futures st ∧ entry_link e = Some l.

(** ** [email_agent.py] *)

Module Email.

(** The exceptions the handlers of [send_email] tell apart, each with its
    [str()]: [json.JSONDecodeError]; any other [ValueError]; an
    [smtplib.SMTPException] of any subclass; a [KeyError] of a dictionary
    access, with the key; any other exception, with the name of its class. *)
Inductive exception : Set :=
| JSONDecodeError (msg : string)
| ValueError (msg : string)
| SMTPException (msg : string)
| KeyError (key : string)
| OtherException (type_name msg : string).

Inductive res (A : Type) : Type :=
| Return (a : A)
| Throw (e : exception).
Arguments Return {A} a.
Arguments Throw {A} e.

Definition res_bind {A B : Type} (r : res A) (k : A → res B) : res B :=
  match r with
  | Return a => k a
  | Throw e => Throw e
  end.

(** [str(e)] and [type(e).__name__] *)
Definition exc_str (e : exception) : string :=
  match e with
  | JSONDecodeError m | ValueError m | SMTPException m => m
  | KeyError k => "'" +:+ k +:+ "'"
  | OtherException _ m => m
  end.

Definition exc_type_name (e : exception) : string :=
  match e with
  | JSONDecodeError _ => "JSONDecodeError"
  | ValueError _ => "ValueError"
  | SMTPException _ => "SMTPException"
  | KeyError _ => "KeyError"
  | OtherException name _ => name
  end.

(** A value of an article dictionary: a string, or any other object, known
    by its truth value and by its text in an f-string. *)
Inductive field : Set :=
| FStr (s : string)
| FOther (truth : bool) (text : string).

Definition field_truthy (v : field) : bool :=
  match v with
  | FStr s => PyStr.truthy s
  | FOther truth _ => truth
  end.

Definition field_format (v : field) : string :=
  match v with
  | FStr s => s
  | FOther _ text => text
  end.

(** An article is a dictionary with string keys. *)
Abbreviation ArticleDict := (gmap string field).

(** [d[key]] *)
Definition subscript (d : ArticleDict) (key : string) : res field :=
  match d !! key with
  | Some v => Return v
  | None => Throw (KeyError key)
  end.

(** *** [process_summarized_articles] *)

Definition processed_article (article : ArticleDict) : ArticleDict :=
  {[ "title" := default (FStr "") (article !! "title");
     "summary" := default (FStr "") (article !! "summary");
     "link" := default (FStr "") (article !! "link");
     "source" := default (FStr "Unknown Source") (article !! "source");
     "publish_date" := default (FStr "") (article !! "publish_date") ]}.

(** [all([p['title'], p['summary'], p['link']])] on an article that has the
    three keys. *)
Definition has_required (p : ArticleDict) : bool :=
  forallb (fun key => field_truthy (default (FStr "") (p !! key)))
          ["title"; "summary"; "link"].

Definition process_summarized_articles (summarized_articles : list ArticleDict)
  : list ArticleDict :=
  fold_left (fun processed_articles article =>
               let p := processed_article article in
               if has_required p then processed_articles ++ [p]
               else processed_articles)
            summarized_articles [].

(** *** [format_html_email] *)

(** The opening of the page of [format_html_email]. *)
Definition page_head : string :=
  "
    <html>
    <head>
        <style>
            body { font-family: Arial, sans-serif; line-height: 1.6; color: #333; }
            .container { max-width: 800px; margin: 0 auto; padding: 20px; }
            .article { margin-bottom: 30px; border-bottom: 1px solid #eee; padding-bottom: 20px; }
            .article-title { color: #1a73e8; font-size: 24px; margin-bottom: 10px; }
            .article-summary { margin-bottom: 15px; white-space: pre-line; }
            .article-link { color: #1a73e8; text-decoration: none; }
            .article-link:hover { text-decoration: underline; }
            .header { background: #1a73e8; color: white; padding: 20px; margin-bottom: 30px; }
            .footer { text-align: center; margin-top: 30px; color: #666; }
            .metadata { font-size: 12px; color: #666; margin-top: 10px; }
        </style>
    </head>
    <body>
        <div class=" +:+ dquote +:+ "container" +:+ dquote +:+ ">
            <div class=" +:+ dquote +:+ "header" +:+ dquote +:+ ">
                <h1>Your Personalized News Summary</h1>
                <p style=" +:+ dquote +:+ "font-size: 16px;" +:+ dquote +:+ ">Here are your latest news articles based on your interests.</p>
            </div>
    ".

(** The text of an article block of [format_html_email], cut at the values substituted: before the title, *)
Definition page_before_title : string :=
  "
            <div class=" +:+ dquote +:+ "article" +:+ dquote +:+ ">
                <h2 class=" +:+ dquote +:+ "article-title" +:+ dquote +:+ ">".

(** before the summary, *)
Definition page_before_summary : string :=
  "</h2>
                <div class=" +:+ dquote +:+ "article-summary" +:+ dquote +:+ ">
                    ".

(** before the link, *)
Definition page_before_link : string :=
  "
                </div>
                <a href=" +:+ dquote.

(** before the source, *)
Definition page_before_source : string :=
  dquote +:+ " class=" +:+ dquote +:+ "article-link" +:+ dquote +:+ ">Read Full Article →</a>
                <div class=" +:+ dquote +:+ "metadata" +:+ dquote +:+ ">
                    Source: ".

(** before the publication clause, *)
Definition page_before_published : string :=
  "
                    ".

(** and after it. *)
Definition page_after_published : string :=
  "
                </div>
            </div>
        ".

(** The closing of the page of [format_html_email]. *)
Definition page_foot : string :=
  "
            <div class=" +:+ dquote +:+ "footer" +:+ dquote +:+ ">
                <p>This summary was generated automatically for you.</p>
                <p style=" +:+ dquote +:+ "font-size: 12px;" +:+ dquote +:+ ">To unsubscribe or modify your preferences, please reply to this email.</p>
            </div>
        </div>
    </body>
    </html>
    ".

(** One turn of the loop: the values are looked up in the order in which
    the f-string names them. *)
Definition page_article (article : ArticleDict) : res string :=
  res_bind (subscript article "title") (fun title =>
  res_bind (subscript article "summary") (fun summary =>
  res_bind (subscript article "link") (fun link =>
  res_bind (subscript article "source") (fun source =>
  res_bind (subscript article "publish_date") (fun publish_date =>
  Return (page_before_title +:+ field_format title
          +:+ page_before_summary +:+ field_format summary
          +:+ page_before_link +:+ field_format link
          +:+ page_before_source +:+ field_format source
          +:+ page_before_published
          +:+ (if field_truthy publish_date
               then "<br>Published: " +:+ field_format publish_date
               else "")
          +:+ page_after_published)))))).

Definition format_html_email (articles : list ArticleDict) : res string :=
  res_bind
    (fold_left (fun html article =>
                  res_bind html (fun h =>
                  res_bind (page_article article) (fun block =>
                  Return (h +:+ block))))
               articles (Return page_head))
    (fun html => Return (html +:+ page_foot)).

(** *** [send_email] *)

Definition RECIPIENT_EMAIL : string := "2022-bs-ai-006@tuf.edu.pk".

(** [SMTP_CONFIG] as the loaded module holds it; its ['use_tls'] is the
    constant [True]. *)
Record SmtpConfig : Set := mk_config {
  server : string;
  port : Z;
  user : string;
  password : string
}.

Definition use_tls : bool := true.

(** An element of the list of articles: a dictionary, or a value that
    cannot be subscripted with a string (the [TypeError] it raises is
    known by its text). *)
Inductive element : Type :=
| EDict (d : ArticleDict)
| ENotDict (type_error : string).

(** The argument once parsed: a list, or any other value, known by its
    truth value. *)
Inductive value : Type :=
| VList (items : list element)
| VOther (truth : bool).

(** The argument of [send_email]: a string to parse, or a value. *)
Inductive argument : Type :=
| ArgStr (s : string)
| ArgValue (v : value).

(** The opening of the page of [send_email]. *)
Definition mail_head : string :=
  "
        <html>
        <head>
            <style>
                body { 
                    font-family: Arial, sans-serif; 
                    line-height: 1.6; 
                    max-width: 800px; 
                    margin: 0 auto; 
                    padding: 20px;
                }
                .article { 
                    margin-bottom: 30px; 
                    padding: 20px; 
                    border: 1px solid #eee;
                    border-radius: 5px;
                }
                .title { 
                    color: #2c5282; 
                    font-size: 24px;
                    margin-bottom: 15px;
                }
                .summary { 
                    color: #2d3748; 
                    margin: 15px 0;
                    white-space: pre-line;
                }
                .metadata {
                    color: #718096;
                    font-size: 14px;
                    margin-top: 10px;
                }
                .link { 
                    color: #4299e1; 
                    text-decoration: none;
                    display: inline-block;
                    margin-top: 10px;
                }
                .link:hover {
                    text-decoration: underline;
                }
            </style>
        </head>
        <body>
            <h1 style=" +:+ dquote +:+ "color: #1a365d; text-align: center; margin-bottom: 30px;" +:+ dquote +:+ ">
                Latest Climate Change News
            </h1>
        ".

(** The text of an article block of [send_email], cut at the values substituted: before the title, *)
Definition mail_before_title : string :=
  "
            <div class=" +:+ dquote +:+ "article" +:+ dquote +:+ ">
                <h2 class=" +:+ dquote +:+ "title" +:+ dquote +:+ ">".

(** before the summary, *)
Definition mail_before_summary : string :=
  "</h2>
                <div class=" +:+ dquote +:+ "summary" +:+ dquote +:+ ">".

(** before the source, *)
Definition mail_before_source : string :=
  "</div>
                <div class=" +:+ dquote +:+ "metadata" +:+ dquote +:+ ">
                    Source: ".

(** before the publication clause, *)
Definition mail_before_published : string :=
  "
                    ".

(** before the link, *)
Definition mail_before_link : string :=
  "
                </div>
                <a href=" +:+ dquote.

(** and after it. *)
Definition mail_after_link : string :=
  dquote +:+ " class=" +:+ dquote +:+ "link" +:+ dquote +:+ ">Read full article →</a>
            </div>
            ".

(** The closing of the page of [send_email]. *)
Definition mail_foot : string :=
  "
            <div style=" +:+ dquote +:+ "text-align: center; margin-top: 30px; color: #718096;" +:+ dquote +:+ ">
                <p>This news summary was automatically generated for you.</p>
            </div>
        </body>
        </html>
        ".

(** The message handed to the server. *)
Record Message : Set := mk_message {
  msg_subject : string;
  msg_from : string;
  msg_to : string;
  msg_html : string
}.

(** What [send_email] does not decide itself: the JSON parser and the
    answers of the server ([None]: the call returns). [smtp_exit] is the
    end of the [with] block. *)
Record Mailer : Type := mk_mailer {
  json_loads : string → res value;
  smtp_connect : string → Z → option exception;
  smtp_starttls : option exception;
  smtp_login : string → string → option exception;
  smtp_send_message : Message → option exception;
  smtp_exit : option exception
}.

(** The calls made to the server, in order. *)
Inductive event : Set :=
| Connect (host : string) (p : Z)
| StartTLS
| Login (u pw : string)
| SendMessage (m : Message)
| Exit.

Record SmtpInfo : Set := mk_info {
  info_server : string;
  info_port : Z;
  info_user : string
}.

(** The dictionary returned: ["status": "success"] with the count and the
    configuration, or ["status": "error"] with the type of the error and,
    for an SMTP error, the configuration. *)
Inductive EmailResult : Set :=
| Success (message : string) (articles_count : nat) (smtp_config : SmtpInfo)
| Error (message error_type : string) (smtp_config : option SmtpInfo).

Definition info_of (cfg : SmtpConfig) : SmtpInfo :=
  {| info_server := server cfg; info_port := port cfg; info_user := user cfg |}.

Definition parse_articles (m : Mailer) (articles : argument) : res value :=
  match articles with
  | ArgStr s => json_loads m s
  | ArgValue v => Return v
  end.

(** [if not articles_list or not isinstance(articles_list, list): raise] *)
Definition check_articles (articles_list : value) : res (list element) :=
  match articles_list with
  | VList (article :: rest) => Return (article :: rest)
  | VList [] | VOther _ =>
      Throw (ValueError "Invalid articles data: Expected a list of articles")
  end.

Definition check_credentials (cfg : SmtpConfig) : res unit :=
  if (negb (PyStr.truthy (user cfg)) || negb (PyStr.truthy (password cfg)))%bool
  then Throw (ValueError
         "Email credentials not found. Please set SMTP_USER and SMTP_PASSWORD environment variables")
  else Return tt.

(** One turn of the loop over the articles. *)
Definition mail_article (article : element) : res string :=
  match article with
  | ENotDict type_error => Throw (OtherException "TypeError" type_error)
  | EDict d =>
      res_bind (subscript d "title") (fun title =>
      res_bind (subscript d "summary") (fun summary =>
      res_bind (subscript d "source") (fun source =>
      res_bind (match d !! "publish_date" with
                | Some v => if field_truthy v
                            then Return (" | Published: " +:+ field_format v)
                            else Return ""
                | None => Return ""
                end) (fun published =>
      res_bind (subscript d "link") (fun link =>
      Return (mail_before_title +:+ field_format title
              +:+ mail_before_summary +:+ field_format summary
              +:+ mail_before_source +:+ field_format source
              +:+ mail_before_published +:+ published
              +:+ mail_before_link +:+ field_format link
              +:+ mail_after_link))))))
  end.

Definition mail_html (articles_list : list element) : res string :=
  res_bind
    (fold_left (fun html article =>
                  res_bind html (fun h =>
                  res_bind (mail_article article) (fun block =>
                  Return (h +:+ block))))
               articles_list (Return mail_head))
    (fun html => Return (html +:+ mail_foot)).

Definition mail_message (cfg : SmtpConfig) (html : string) : Message :=
  {| msg_subject := "Climate Change News Summary";
     msg_from := "News Agent <" +:+ user cfg +:+ ">";
     msg_to := RECIPIENT_EMAIL;
     msg_html := html |}.

(** The body of the [with] block: the calls made and the exception that
    ended it, if any. *)
Definition smtp_body (m : Mailer) (cfg : SmtpConfig) (msg : Message)
  : list event * option exception :=
  let after_tls :=
    match smtp_login m (user cfg) (password cfg) with
    | Some e => ([Login (user cfg) (password cfg)], Some e)
    | None =>
        ([Login (user cfg) (password cfg); SendMessage msg], smtp_send_message m msg)
    end in
  if use_tls
  then match smtp_starttls m with
       | Some e => ([StartTLS], Some e)
       | None => (StartTLS :: after_tls.1, after_tls.2)
       end
  else after_tls.

(** [with smtplib.SMTP(server, port) as server: ...]. Nothing follows an
    exception of the constructor. Otherwise the block is left through
    [__exit__], whose exception, if it raises one, is the one that
    propagates. *)
Definition smtp_session (m : Mailer) (cfg : SmtpConfig) (msg : Message)
  : list event * option exception :=
  match smtp_connect m (server cfg) (port cfg) with
  | Some e => ([Connect (server cfg) (port cfg)], Some e)
  | None =>
      let body := smtp_body m cfg msg in
      (Connect (server cfg) (port cfg) :: body.1 ++ [Exit],
       match smtp_exit m with
       | Some e => Some e
       | None => body.2
       end)
  end.

(** The [except] clauses, in their order. *)
Definition handle (cfg : SmtpConfig) (e : exception) : EmailResult :=
  match e with
  | JSONDecodeError msg => Error ("Invalid JSON data: " +:+ msg) "JSONDecodeError" None
  | ValueError msg => Error msg "ValueError" None
  | SMTPException msg => Error ("SMTP error: " +:+ msg) "SMTPException" (Some (info_of cfg))
  | KeyError _ | OtherException _ _ =>
      Error ("Failed to send email: " +:+ exc_str e) (exc_type_name e) None
  end.

(** What precedes the connection: parsing, the two checks, the page. *)
Definition prepare (m : Mailer) (cfg : SmtpConfig) (articles : argument)
  : res (list element * Message) :=
  res_bind (parse_articles m articles) (fun articles_list =>
  res_bind (check_articles articles_list) (fun items =>
  res_bind (check_credentials cfg) (fun _ =>
  res_bind (mail_html items) (fun html =>
  Return (items, mail_message cfg html))))).

(** [send_email], with the calls it made to the server. *)
Definition send_email (m : Mailer) (cfg : SmtpConfig) (articles : argument)
  : EmailResult * list event :=
  match prepare m cfg articles with
  | Throw e => (handle cfg e, [])
  | Return (items, msg) =>
      let session := smtp_session m cfg msg in
      match session.2 with
      | Some e => (handle cfg e, session.1)
      | None =>
          (Success ("Email sent successfully to " +:+ RECIPIENT_EMAIL)
                   (length items) (info_of cfg),
           session.1)
      end
  end.

End Email.

(** ** Definitions for the properties of [email_agent.py] *)

(** The keys [process_summarized_articles] gives every article. *)
Definition processed_keys : gset string :=
  {[ "title"; "summary"; "link"; "source"; "publish_date" ]}.

(** The keys an article block of [send_email] subscripts, in the order of
    the f-string, and the first of them that a dictionary lacks. *)
Definition mail_keys : list string := ["title"; "summary"; "source"; "link"].

Definition first_missing (d : Email.ArticleDict) : option string :=
  List.find (fun key => bool_decide (d !! key = None)) mail_keys.

(** An element that [send_email] can render. *)
Definition renderable (e : Email.element) : Prop :=
  match e with
  | Email.EDict d => first_missing d = None
  | Email.ENotDict _ => False
  end.


Definition is_send (ev : Email.event) : bool :=
  match ev with
  | Email.SendMessage _ => true
  | _ => false
  end.

(** ** A scenario for the dates of an entry *)

Module DateScenario.
Import Scenario.

(** An entry whose publication date did not parse and whose update date
    did, followed in its feed by a dated entry. *)
Definition unparsed_entry : FeedEntry :=
  {| entry_title := Some "Ocean"; entry_content := None; entry_link := Some "a";
     published_parsed := Some None; updated_parsed := Some (Some (day 3)) |}.

Definition world_unparsed : World :=
  offline_world (Ok [unparsed_entry; dated_entry "Ocean" "b" (day 1)])
                (Raise RetrievalError).

End DateScenario.

(** ** Scenarios for [email_agent.py] *)

Module MailScenario.
Import Email.

(** An article as the summarizer gives it, and one without a source. *)
Definition complete_article : ArticleDict :=
  {[ "title" := FStr "Ocean warming"; "summary" := FStr "The ocean warms.";
     "link" := FStr "https://example.org/a"; "source" := FStr "BBC";
     "publish_date" := FStr "2024-04-09" ]}.

Definition article_without_source : ArticleDict :=
  {[ "title" := FStr "Ocean warming"; "summary" := FStr "The ocean warms.";
     "link" := FStr "https://example.org/a" ]}.

(** A server that accepts every call, and a parser that rejects every
    string. *)
Definition accepting_mailer : Mailer :=
  {| json_loads := fun _ => Throw (JSONDecodeError "Expecting value: line 1 column 1 (char 0)");
     smtp_connect := fun _ _ => None;
     smtp_starttls := None;
     smtp_login := fun _ _ => None;
     smtp_send_message := fun _ => None;
     smtp_exit := None |}.

Definition gmail : SmtpConfig :=
  {| server := "smtp.gmail.com"; port := 587;
     user := "agent@example.org"; password := "app-password" |}.

End MailScenario.

(** * Properties *)

(** ** Strings *)

Section StringFacts.
Import PyStr.







(** A keyword is never the empty string. *)
Lemma split_scan_nonempty (s : string) (cur : list ascii) :
  Forall (fun k => k ≠ "") (split_scan s cur).
Proof.
  assert (Hrev : ∀ c cs, string_of_rev (c :: cs) ≠ "").
  { intros c cs. unfold string_of_rev. simpl.
    destruct (rev cs); simpl; discriminate. }
  revert cur. induction s as [|c s IH]; intros cur; simpl.
  - destruct cur; repeat constructor. apply Hrev.
  - destruct (isspace c); [|apply IH].
    destruct cur; [apply IH|]. constructor; [apply Hrev | apply IH].
Qed.

Lemma split_empty : split (lower "") = [].
Proof. reflexivity. Qed.
End StringFacts.

(** ** The scoring loops *)






Lemma occurrences_nonneg (text : string) (keywords : list string) :
  0 <= occurrences text keywords.
Proof. induction keywords; simpl; unfold ci_count in *; lia. Qed.

Lemma recency_of_values (w : World) (l : string) (d : option struct_time) :
  recency_of w l d = 0 ∨ recency_of w l d = 3 ∨ recency_of w l d = 5.
Proof.
  unfold recency_of. destruct d as [d|]; [|auto].
  destruct (Qltb _ _); [auto|]. destruct (Qltb _ _); auto.
Qed.

Lemma recency_of_positive_dated (w : World) (l : string) (d : option struct_time) :
  0 < recency_of w l d → is_Some d.
Proof. destruct d; simpl; [eauto | lia]. Qed.

(** ** The content extractor *)









(** ** The scorer *)

Lemma fetch_article_content_some (w : World) (entry : FeedEntry)
      (keywords : list string) (a : ScoredArticle) :
  fetch_article_content w entry keywords = Some a →
  entry_link entry = Some (link a)
  ∧ PyStr.truthy (link a) = true
  ∧ title a = dict_get_default (entry_title entry) ""
  ∧ content a = final_content_of w (link a) (initial_content_of (entry_content entry))
  ∧ publish_date a = entry_publish_date entry
  ∧ relevance_score a
    = title_score_of (PyStr.lower (title a)) keywords
      + content_score_of (PyStr.lower (content a)) keywords
      + recency_of w (link a) (publish_date a)
  ∧ title_matches (match_details a)
    = title_score_of (PyStr.lower (title a)) keywords / 10
  ∧ content_matches (match_details a)
    = content_score_of (PyStr.lower (content a)) keywords
  ∧ recency_bonus (match_details a) = recency_of w (link a) (publish_date a)
  ∧ 0 < relevance_score a.
Proof.
  unfold fetch_article_content.
  destruct (entry_link entry) as [l|]; [|done].
  destruct (PyStr.truthy l) eqn:Hl; simpl; [|done].
  destruct (0 <? _) eqn:Hpos; [|done].
  intros [= <-]. simpl. apply Z.ltb_lt in Hpos. by repeat split.
Qed.


(** ** The sort *)

Lemma is_Ok_Ok {A : Type} (a : A) : is_Ok (Ok a).
Proof. by exists a. Qed.

Lemma not_is_Ok_Raise {A : Type} (e : exn) : ¬ is_Ok (@Raise A e).
Proof. by intros [a Ha]. Qed.

#[local] Hint Resolve is_Ok_Ok : core.

(** Facts about [StronglySorted] for a relation that is used as "every two
    elements at different positions are related". *)
Section Pairwise.
Context {A : Type} (C : relation A).

Lemma StronglySorted_impl (R : relation A) (l : list A) :
  (∀ x y, x ∈ l → y ∈ l → C x y → R x y) →
  StronglySorted C l → StronglySorted R l.
Proof.
  intros Himpl Hl. induction Hl as [|x l Hl IH Hx]; constructor.
  - apply IH. intros a b Ha Hb. apply Himpl; by right.
  - rewrite Forall_forall in *. intros y Hy.
    apply Himpl; [by left | by right | by apply Hx].
Qed.

Lemma StronglySorted_and (R : relation A) (l : list A) :
  StronglySorted C l → StronglySorted R l →
  StronglySorted (fun x y => C x y ∧ R x y) l.
Proof.
  induction 1 as [|x l Hl IH Hx]; intros HR; [constructor|].
  apply StronglySorted_cons in HR as [HRx HR].
  constructor; [by apply IH|].
  rewrite Forall_forall in *. naive_solver.
Qed.

Lemma StronglySorted_rev (l : list A) :
  StronglySorted C l → StronglySorted (flip C) (rev l).
Proof.
  induction 1 as [|x l Hl IH Hx]; simpl; [constructor|].
  apply StronglySorted_app_2; [|done|repeat constructor].
  intros a b Ha Hb. apply list_elem_of_singleton in Hb as ->.
  rewrite Forall_forall in Hx. apply Hx.
  apply list_elem_of_In, in_rev, list_elem_of_In in Ha. exact Ha.
Qed.

Context `{!Symmetric C}.

Lemma pairwise_Permutation (l1 l2 : list A) :
  l1 ≡ₚ l2 → StronglySorted C l1 → StronglySorted C l2.
Proof.
  induction 1 as [|x l1 l2 Hp IH|x y l|l1 l2 l3 _ IH1 _ IH2]; intros Hs.
  - done.
  - apply StronglySorted_cons in Hs as [Hx Hs].
    constructor; [by apply IH | by rewrite <- Hp].
  - apply StronglySorted_cons in Hs as [Hy Hs].
    apply StronglySorted_cons in Hs as [Hx Hs].
    apply Forall_cons in Hy as [Hyx Hy].
    constructor; [by constructor|]. constructor; [by symmetry | done].
  - by apply IH2, IH1.
Qed.
End Pairwise.

(** The insertion sort against a total comparison [ltb] that agrees with
    every answer [lt] gives. *)
Section SortTheory.
Context {A : Type} (lt : A → A → result bool) (ltb : A → A → bool).

Hypothesis lt_refines : ∀ x y b, lt x y = Ok b → ltb x y = b.
Hypothesis ltb_asym : ∀ x y, ltb x y = true → ltb y x = false.
Hypothesis ltb_trans : ∀ x y z, ltb x y = true → ltb y z = true → ltb x z = true.

Lemma pure_insert_perm (p : A) (s : list A) : pure_insert ltb p s ≡ₚ p :: s.
Proof.
  induction s as [|y s IH]; simpl; [done|].
  destruct (ltb p y); [done|]. rewrite IH. apply perm_swap.
Qed.

Lemma pure_fold_perm (l acc : list A) :
  fold_left (fun acc pivot => pure_insert ltb pivot acc) l acc ≡ₚ l ++ acc.
Proof.
  revert acc. induction l as [|x l IH]; intros acc; simpl; [done|].
  rewrite IH, pure_insert_perm. by rewrite Permutation_middle.
Qed.

Lemma pure_sort_perm (l : list A) : pure_sort ltb l ≡ₚ l.
Proof. unfold pure_sort. by rewrite pure_fold_perm, app_nil_r. Qed.

Lemma pure_insert_sorted (p : A) (s : list A) :
  StronglySorted (ascending ltb) s → StronglySorted (ascending ltb) (pure_insert ltb p s).
Proof.
  induction 1 as [|y s Hs IH Hy]; simpl; [repeat constructor|].
  destruct (ltb p y) eqn:Hpy.
  - constructor; [by constructor|].
    constructor; [by apply ltb_asym|].
    rewrite Forall_forall in *. intros z Hz. specialize (Hy z Hz).
    unfold ascending in *. destruct (ltb z p) eqn:Hzp; [|done].
    by rewrite (ltb_trans z p y) in Hy.
  - constructor; [done|]. rewrite pure_insert_perm.
    constructor; [exact Hpy | done].
Qed.

Lemma pure_fold_sorted (l acc : list A) :
  StronglySorted (ascending ltb) acc →
  StronglySorted (ascending ltb) (fold_left (fun acc pivot => pure_insert ltb pivot acc) l acc).
Proof.
  revert acc. induction l as [|x l IH]; intros acc Hacc; simpl; [done|].
  by apply IH, pure_insert_sorted.
Qed.

Lemma pure_sort_sorted (l : list A) : StronglySorted (ascending ltb) (pure_sort ltb l).
Proof. apply pure_fold_sorted. constructor. Qed.

Lemma insert_sorted_refines (p : A) (s s' : list A) :
  insert_sorted lt p s = Ok s' → s' = pure_insert ltb p s.
Proof.
  revert s'. induction s as [|y s IH]; intros s'; simpl.
  - by intros [= <-].
  - destruct (lt p y) as [b|] eqn:Hpy; simpl; [|done].
    rewrite (lt_refines _ _ _ Hpy). destruct b; [by intros [= <-]|].
    destruct (insert_sorted lt p s) as [r|]; simpl; [|done].
    intros [= <-]. by rewrite (IH r).
Qed.

Lemma sort_fold_raise (l : list A) (e : exn) :
  fold_left (sort_step lt) l (Raise e) = Raise e.
Proof. induction l; simpl; done. Qed.

Lemma sort_fold_refines (l acc s : list A) :
  fold_left (sort_step lt) l (Ok acc) = Ok s →
  s = fold_left (fun acc pivot => pure_insert ltb pivot acc) l acc.
Proof.
  revert acc. induction l as [|x l IH]; intros acc; simpl.
  - by intros [= <-].
  - destruct (insert_sorted lt x acc) as [acc'|e] eqn:Hins.
    + apply insert_sorted_refines in Hins as ->. apply IH.
    + by rewrite sort_fold_raise.
Qed.

Lemma sort_asc_refines (l s : list A) :
  sort_asc lt l = Ok s → s = pure_sort ltb l.
Proof. apply sort_fold_refines. Qed.

Lemma sort_asc_snoc (l : list A) (x : A) :
  sort_asc lt (l ++ [x]) = sort_step lt (sort_asc lt l) x.
Proof. unfold sort_asc. by rewrite fold_left_app. Qed.

Lemma sort_asc_perm (l s : list A) : sort_asc lt l = Ok s → s ≡ₚ l.
Proof. intros ->%sort_asc_refines. apply pure_sort_perm. Qed.

Lemma sort_asc_sorted (l s : list A) :
  sort_asc lt l = Ok s → StronglySorted (ascending ltb) s.
Proof. intros ->%sort_asc_refines. apply pure_sort_sorted. Qed.

Lemma sort_reverse_perm (l s : list A) : sort_reverse lt l = Ok s → s ≡ₚ l.
Proof.
  unfold sort_reverse. destruct (sort_asc lt (rev l)) as [r|] eqn:Hr; [|done].
  intros [= <-]. apply sort_asc_perm in Hr.
  by rewrite <- !Permutation_rev, Hr, <- Permutation_rev.
Qed.

Lemma sort_reverse_sorted (l s : list A) :
  sort_reverse lt l = Ok s → StronglySorted (descending ltb) s.
Proof.
  unfold sort_reverse. destruct (sort_asc lt (rev l)) as [r|] eqn:Hr; [|done].
  intros [= <-]. apply sort_asc_sorted in Hr.
  by apply StronglySorted_rev in Hr.
Qed.
End SortTheory.

(** When the sort raises. The comparison may be undefined on some pairs;
    whether the sort meets such a pair does not depend on the order of the
    input. *)
Section SortErrors.
Context {A : Type} (lt : A → A → result bool) (ltb : A → A → bool).

Hypothesis lt_refines : ∀ x y b, lt x y = Ok b → ltb x y = b.
Hypothesis ltb_asym : ∀ x y, ltb x y = true → ltb y x = false.
Hypothesis ltb_trans : ∀ x y z, ltb x y = true → ltb y z = true → ltb x z = true.
Hypothesis lt_sym_ok : ∀ x y, is_Ok (lt x y) → is_Ok (lt y x).
Hypothesis lt_up : ∀ p y z, lt p y = Ok true → lt z y = Ok false → is_Ok (lt p z).
Hypothesis lt_raises : ∀ x y e, lt x y = Raise e → e = TypeError.

#[local] Instance comparable_sym : Symmetric (comparable lt).
Proof. intros x y [? ?]. by split. Qed.

Lemma insert_sorted_ok (p : A) (s : list A) :
  StronglySorted (fun a b => lt b a = Ok false) s →
  is_Ok (insert_sorted lt p s) ↔ Forall (fun y => is_Ok (lt p y)) s.
Proof.
  induction 1 as [|y s Hs IH Hy]; simpl; [by split; eauto|].
  split.
  - intros [r Hr]. destruct (lt p y) as [b|] eqn:Hpy; simpl in Hr; [|done].
    constructor; [by rewrite Hpy|]. destruct b.
    + rewrite Forall_forall in *. intros z Hz. by eapply lt_up, Hy.
    + apply IH. destruct (insert_sorted lt p s); [done|]. done.
  - intros [[b Hpy] Hrest]%Forall_cons. rewrite Hpy. simpl.
    destruct b; [done|]. apply IH in Hrest as [r ->]. simpl. done.
Qed.

Lemma sorted_lt_of_comparable (s : list A) :
  all_comparable lt s → StronglySorted (ascending ltb) s →
  StronglySorted (fun a b => lt b a = Ok false) s.
Proof.
  intros Hc Ha.
  apply (StronglySorted_impl (fun x y => comparable lt x y ∧ ascending ltb x y));
    [|by apply StronglySorted_and].
  intros a b _ _ [Hcab Hab]. unfold comparable in Hcab.
  destruct Hcab as [_ [r Hr]].
  unfold ascending in Hab. rewrite Hr. f_equal.
  by rewrite <- (lt_refines _ _ _ Hr).
Qed.

Lemma sort_asc_ok (l : list A) : is_Ok (sort_asc lt l) ↔ all_comparable lt l.
Proof.
  induction l as [|x l IH] using rev_ind.
  - split; [constructor | by eexists].
  - rewrite sort_asc_snoc. unfold all_comparable.
    rewrite (StronglySorted_app (comparable lt)).
    assert (Hstep : ∀ s, sort_asc lt l = Ok s →
              is_Ok (insert_sorted lt x s) ↔ Forall (fun y => is_Ok (lt x y)) l).
    { intros s Hs.
      assert (Hperm : s ≡ₚ l) by (by eapply sort_asc_perm).
      rewrite <- Hperm. apply insert_sorted_ok, sorted_lt_of_comparable.
      - eapply pairwise_Permutation; [apply _ | symmetry; exact Hperm |].
        apply IH. by eexists.
      - by eapply sort_asc_sorted. }
    split.
    + intros [r Hr]. destruct (sort_asc lt l) as [s|] eqn:Hs; [|done].
      simpl in Hr. assert (Hins : is_Ok (insert_sorted lt x s)) by by eexists.
      apply (Hstep s eq_refl) in Hins. rewrite Forall_forall in Hins.
      split_and!.
      * intros a b Ha ->%list_elem_of_singleton. split; auto.
      * apply IH. by eexists.
      * repeat constructor.
    + intros (Hx & Hl & _). apply IH in Hl as [s Hs]. rewrite Hs. simpl.
      apply (Hstep s Hs). apply Forall_forall. intros y Hy.
      apply (Hx y x Hy). by apply list_elem_of_singleton.
Qed.

Lemma sort_reverse_ok (l : list A) : is_Ok (sort_reverse lt l) ↔ all_comparable lt l.
Proof.
  unfold sort_reverse. split.
  - intros [r Hr]. destruct (sort_asc lt (rev l)) as [s|] eqn:Hs; [|done].
    eapply pairwise_Permutation; [apply _ | symmetry; apply Permutation_rev |].
    apply sort_asc_ok. by eexists.
  - intros Hl.
    assert (Hrev : all_comparable lt (rev l)).
    { eapply pairwise_Permutation; [apply _ | apply Permutation_rev | done]. }
    apply sort_asc_ok in Hrev as [s ->]. by eexists.
Qed.

Lemma insert_sorted_raises (p : A) (s : list A) (e : exn) :
  insert_sorted lt p s = Raise e → e = TypeError.
Proof.
  induction s as [|y s IH]; simpl; [done|].
  destruct (lt p y) as [b|e'] eqn:Hpy; simpl.
  - destruct b; [done|]. destruct (insert_sorted lt p s); simpl; [done|].
    intros [= <-]. by apply IH.
  - intros [= <-]. by eapply lt_raises.
Qed.

Lemma sort_fold_raises (l : list A) (acc : result (list A)) (e : exn) :
  (∀ e', acc = Raise e' → e' = TypeError) →
  fold_left (sort_step lt) l acc = Raise e → e = TypeError.
Proof.
  revert acc. induction l as [|x l IH]; intros acc Hacc; simpl; [apply Hacc|].
  apply IH. intros e'. destruct acc as [s|e0]; simpl.
  - apply insert_sorted_raises.
  - intros [= <-]. by apply Hacc.
Qed.

Lemma sort_reverse_raises (l : list A) (e : exn) :
  sort_reverse lt l = Raise e → e = TypeError.
Proof.
  unfold sort_reverse. destruct (sort_asc lt (rev l)) as [s|e'] eqn:Hs; [done|].
  intros [= <-]. by eapply sort_fold_raises in Hs.
Qed.

Lemma sort_reverse_not_ok (l : list A) :
  ¬ all_comparable lt l → sort_reverse lt l = Raise TypeError.
Proof.
  intros Hl. destruct (sort_reverse lt l) as [s|e] eqn:Hs.
  - destruct Hl. apply sort_reverse_ok. by eexists.
  - by rewrite (sort_reverse_raises _ _ Hs).
Qed.

End SortErrors.

(** ** The two orders of the program *)

Lemma tuple_lt_irrefl (a : list Z) : tuple_lt a a = false.
Proof. induction a as [|x a IH]; simpl; [done|]. by rewrite Z.eqb_refl. Qed.

Lemma tuple_lt_asym (a b : list Z) : tuple_lt a b = true → tuple_lt b a = false.
Proof.
  revert b. induction a as [|x a IH]; intros [|y b]; simpl; try done.
  destruct (Z.eqb_spec x y) as [->|Hxy].
  - rewrite Z.eqb_refl. apply IH.
  - destruct (Z.eqb_spec y x); [congruence|].
    rewrite Z.ltb_lt, Z.ltb_ge. lia.
Qed.

Lemma tuple_lt_trans (a b c : list Z) :
  tuple_lt a b = true → tuple_lt b c = true → tuple_lt a c = true.
Proof.
  revert b c. induction a as [|x a IH]; intros [|y b] [|z c]; simpl; try done.
  destruct (Z.eqb_spec x y) as [->|Hxy], (Z.eqb_spec y z) as [->|Hyz].
  - apply IH.
  - done.
  - destruct (Z.eqb_spec x z); [done|]. by intros ? _.
  - rewrite !Z.ltb_lt. destruct (Z.eqb_spec x z); [|rewrite Z.ltb_lt]; lia.
Qed.


Lemma tuple_lt_app_same (p a b : list Z) :
  tuple_lt (p ++ a) (p ++ b) = tuple_lt a b.
Proof. induction p as [|x p IH]; simpl; [done|]. by rewrite Z.eqb_refl. Qed.

Lemma tuple_lt_app_differ (a b x y : list Z) :
  length a = length b → a ≠ b → tuple_lt (a ++ x) (b ++ y) = tuple_lt a b.
Proof.
  revert b. induction a as [|u a IH]; intros [|v b]; simpl; try done.
  intros [= Hlen] Hne. destruct (Z.eqb_spec u v) as [->|]; [|done].
  apply IH; [done | congruence].
Qed.

Lemma cons_eq_inv {A : Type} (x y : A) (a b : list A) :
  x :: a = y :: b → x = y ∧ a = b.
Proof. by intros [= -> ->]. Qed.

Lemma tm_tuple_length (t : struct_time) : length (tm_tuple t) = 9%nat.
Proof. done. Qed.

Lemma tm_tuple_inj (t1 t2 : struct_time) : tm_tuple t1 = tm_tuple t2 → t1 = t2.
Proof. destruct t1, t2. unfold tm_tuple. simpl. by intros [= -> -> -> -> -> -> -> -> ->]. Qed.

#[global] Arguments tm_tuple : simpl never.

Lemma enc_date_inj (a b : option struct_time) : enc_date a = enc_date b → a = b.
Proof.
  destruct a as [x|], b as [y|]; cbn [enc_date]; try done.
  intros [_ H]%cons_eq_inv. f_equal. by apply tm_tuple_inj.
Qed.


Lemma date_lt_refines (a b : option struct_time) (r : bool) :
  date_lt a b = Ok r → date_ltb a b = r.
Proof.
  destruct a as [x|], b as [y|]; cbn [date_lt]; try done.
  intros [= <-]. unfold date_ltb. cbn [enc_date].
  change (tuple_lt (1 :: tm_tuple x) (1 :: tm_tuple y))
    with (tuple_lt (tm_tuple x) (tm_tuple y)). done.
Qed.

Lemma date_lt_ok (a b : option struct_time) :
  is_Ok (date_lt a b) ↔ is_Some a ∧ is_Some b.
Proof.
  destruct a as [x|], b as [y|]; simpl; split;
    first [ by intros [r Hr]
          | by intros [[? ?] [? ?]]
          | by intros _; split; eexists
          | by intros _; eexists ].
Qed.

Lemma date_eqb_sym (a b : option struct_time) : date_eqb a b = date_eqb b a.
Proof.
  destruct a as [x|], b as [y|]; simpl; try done.
  apply bool_decide_ext. naive_solver.
Qed.

Lemma key_lt_ok (s1 s2 : Z) (d1 d2 : option struct_time) (p1 p2 : bool) :
  is_Ok (key_lt (s1, d1, p1) (s2, d2, p2))
  ↔ s1 ≠ s2 ∨ (is_Some d1 ↔ is_Some d2).
Proof.
  unfold key_lt. destruct (Z.eqb_spec s1 s2) as [->|Hs]; simpl.
  - destruct d1 as [x|], d2 as [y|]; simpl; split.
    + intros _. by right.
    + intros _. repeat case_match; by eexists.
    + by intros [? ?].
    + intros [?|[H1 H2]]; [done|].
      assert (is_Some (@None struct_time)) as [? ?] by (by apply H1; eexists).
      done.
    + by intros [? ?].
    + intros [?|[H1 H2]]; [done|].
      assert (is_Some (@None struct_time)) as [? ?] by (by apply H2; eexists).
      done.
    + intros _. by right.
    + intros _. repeat case_match; by eexists.
  - split; [by left | by eexists].
Qed.

Lemma key_lt_true_le (s1 s2 : Z) (d1 d2 : option struct_time) (p1 p2 : bool) :
  key_lt (s1, d1, p1) (s2, d2, p2) = Ok true → s1 <= s2.
Proof.
  unfold key_lt. destruct (Z.eqb_spec s1 s2) as [->|Hs]; simpl; [lia|].
  intros [= H]. lia.
Qed.

Lemma key_lt_false_ge (s1 s2 : Z) (d1 d2 : option struct_time) (p1 p2 : bool) :
  key_lt (s1, d1, p1) (s2, d2, p2) = Ok false → s2 <= s1.
Proof.
  unfold key_lt. destruct (Z.eqb_spec s1 s2) as [->|Hs]; simpl; [lia|].
  intros [= H]. lia.
Qed.

Lemma key_lt_refines (k1 k2 : SortKey) (r : bool) :
  key_lt k1 k2 = Ok r → key_ltb k1 k2 = r.
Proof.
  destruct k1 as [[s1 d1] p1], k2 as [[s2 d2] p2]. unfold key_lt, key_ltb.
  simpl enc_key. simpl tuple_lt.
  destruct (Z.eqb_spec s1 s2) as [->|Hs]; simpl; [|by intros [= <-]].
  destruct d1 as [x|], d2 as [y|]; cbn [date_eqb date_lt enc_date]; try done.
  - change (tuple_lt ((1 :: tm_tuple x) ++ [Z.b2z p1]) ((1 :: tm_tuple y) ++ [Z.b2z p2]))
      with (tuple_lt (tm_tuple x ++ [Z.b2z p1]) (tm_tuple y ++ [Z.b2z p2])).
    case_bool_decide as Ht; cbn [negb].
    + rewrite Ht, tuple_lt_app_same.
      destruct p1, p2; simpl; by intros [= <-].
    + intros [= <-]. by apply tuple_lt_app_differ.
  - destruct p1, p2; simpl; by intros [= <-].
Qed.

Lemma key_lt_sym_ok (k1 k2 : SortKey) : is_Ok (key_lt k1 k2) → is_Ok (key_lt k2 k1).
Proof.
  destruct k1 as [[s1 d1] p1], k2 as [[s2 d2] p2]. rewrite !key_lt_ok.
  intros [?|?]; [left; congruence | right; tauto].
Qed.

Lemma key_lt_up (p y z : SortKey) :
  key_lt p y = Ok true → key_lt z y = Ok false → is_Ok (key_lt p z).
Proof.
  destruct p as [[s1 d1] p1], y as [[s2 d2] p2], z as [[s3 d3] p3].
  intros Hpy Hzy.
  pose proof (key_lt_true_le _ _ _ _ _ _ Hpy).
  pose proof (key_lt_false_ge _ _ _ _ _ _ Hzy).
  assert (H1 : is_Ok (key_lt (s1, d1, p1) (s2, d2, p2))) by by eexists.
  assert (H2 : is_Ok (key_lt (s3, d3, p3) (s2, d2, p2))) by by eexists.
  rewrite key_lt_ok in *.
  destruct (decide (s1 = s3)) as [->|]; [right|by left].
  assert (s3 = s2) as -> by lia.
  destruct H1 as [?|H1]; [done|]. destruct H2 as [?|H2]; [done|]. tauto.
Qed.

Lemma key_lt_raises (k1 k2 : SortKey) (e : exn) :
  key_lt k1 k2 = Raise e → e = TypeError.
Proof.
  destruct k1 as [[s1 d1] p1], k2 as [[s2 d2] p2]. unfold key_lt.
  destruct (negb _); [done|]. destruct (negb _).
  - destruct d1, d2; simpl; congruence.
  - by destruct (negb _).
Qed.

Lemma date_lt_raises (a b : option struct_time) (e : exn) :
  date_lt a b = Raise e → e = TypeError.
Proof. destruct a, b; simpl; congruence. Qed.


Section Orders.
Lemma article_lt_refines x y b : article_lt x y = Ok b → article_ltb x y = b.
Proof. apply key_lt_refines. Qed.
Lemma article_ltb_asym x y : article_ltb x y = true → article_ltb y x = false.
Proof. apply tuple_lt_asym. Qed.
Lemma article_ltb_trans x y z :
  article_ltb x y = true → article_ltb y z = true → article_ltb x z = true.
Proof. apply tuple_lt_trans. Qed.
Lemma article_lt_sym_ok x y : is_Ok (article_lt x y) → is_Ok (article_lt y x).
Proof. apply key_lt_sym_ok. Qed.
Lemma article_lt_up p y z :
  article_lt p y = Ok true → article_lt z y = Ok false → is_Ok (article_lt p z).
Proof. apply key_lt_up. Qed.
Lemma article_lt_raises x y e : article_lt x y = Raise e → e = TypeError.
Proof. apply key_lt_raises. Qed.

Lemma entry_lt_refines x y b : entry_lt x y = Ok b → entry_ltb x y = b.
Proof. apply date_lt_refines. Qed.
Lemma entry_ltb_asym x y : entry_ltb x y = true → entry_ltb y x = false.
Proof. apply tuple_lt_asym. Qed.
Lemma entry_ltb_trans x y z :
  entry_ltb x y = true → entry_ltb y z = true → entry_ltb x z = true.
Proof. apply tuple_lt_trans. Qed.
Lemma entry_lt_sym_ok x y : is_Ok (entry_lt x y) → is_Ok (entry_lt y x).
Proof. unfold entry_lt. rewrite !date_lt_ok. tauto. Qed.
Lemma entry_lt_up p y z :
  entry_lt p y = Ok true → entry_lt z y = Ok false → is_Ok (entry_lt p z).
Proof.
  intros Hpy Hzy. unfold entry_lt in *.
  assert (H1 : is_Ok (date_lt (entry_sort_key p) (entry_sort_key y))) by by eexists.
  assert (H2 : is_Ok (date_lt (entry_sort_key z) (entry_sort_key y))) by by eexists.
  rewrite date_lt_ok in *. tauto.
Qed.
Lemma entry_lt_raises x y e : entry_lt x y = Raise e → e = TypeError.
Proof. apply date_lt_raises. Qed.
End Orders.

(** Two articles can be ordered unless they have the same score and one
    has a publication date and the other has none. *)
Lemma article_comparable_iff (x y : ScoredArticle) :
  comparable article_lt x y
  ↔ relevance_score x ≠ relevance_score y
    ∨ (is_Some (publish_date x) ↔ is_Some (publish_date y)).
Proof.
  unfold comparable, article_lt, article_sort_key. rewrite !key_lt_ok.
  split; [tauto|].
  intros [?|?]; split; first [by left | by right | left; congruence | right; tauto].
Qed.

(** Two entries can be ordered when both have a sort key. *)
Lemma entry_comparable_iff (x y : FeedEntry) :
  comparable entry_lt x y
  ↔ is_Some (entry_sort_key x) ∧ is_Some (entry_sort_key y).
Proof. unfold comparable, entry_lt. rewrite !date_lt_ok. tauto. Qed.

(** What "not smaller" means for the triples. *)
Lemma key_ltb_false (s1 s2 : Z) (d1 d2 : option struct_time) (p1 p2 : bool) :
  key_ltb (s1, d1, p1) (s2, d2, p2) = false →
  s2 <= s1 ∧ (s1 = s2 → date_ltb d1 d2 = false).
Proof.
  unfold key_ltb, date_ltb. cbn [enc_key tuple_lt].
  destruct (Z.eqb_spec s1 s2) as [->|Hs]; [|rewrite Z.ltb_ge; lia].
  intros H. split; [lia|]. intros _.
  destruct d1 as [x|], d2 as [y|]; cbn [enc_date] in *; try done.
  destruct (decide (tm_tuple x = tm_tuple y)) as [->|Hne].
  - apply tuple_lt_irrefl.
  - change (tuple_lt (tm_tuple x ++ [Z.b2z p1]) (tm_tuple y ++ [Z.b2z p2]) = false) in H.
    rewrite tuple_lt_app_differ in H by done.
    change (tuple_lt (tm_tuple x) (tm_tuple y) = false). done.
Qed.

Lemma descending_articles (x y : ScoredArticle) :
  descending article_ltb x y →
  relevance_score y <= relevance_score x
  ∧ (relevance_score x = relevance_score y →
     date_ltb (publish_date x) (publish_date y) = false).
Proof. apply key_ltb_false. Qed.

Section ArticleSort.
#[local] Abbreviation sort_articles := (sorted_reverse article_sort_key key_lt).

Lemma sort_articles_perm l s : sort_articles l = Ok s → s ≡ₚ l.
Proof. apply (sort_reverse_perm article_lt article_ltb article_lt_refines). Qed.

Lemma sort_articles_sorted l s :
  sort_articles l = Ok s → StronglySorted (descending article_ltb) s.
Proof.
  apply (sort_reverse_sorted article_lt article_ltb article_lt_refines
           article_ltb_asym article_ltb_trans).
Qed.

Lemma sort_articles_ok l :
  is_Ok (sort_articles l) ↔ all_comparable article_lt l.
Proof.
  apply (sort_reverse_ok article_lt article_ltb article_lt_refines
           article_ltb_asym article_ltb_trans article_lt_sym_ok article_lt_up).
Qed.

Lemma sort_articles_raises l e : sort_articles l = Raise e → e = TypeError.
Proof. apply (sort_reverse_raises article_lt article_lt_raises). Qed.

End ArticleSort.

Section EntrySort.
#[local] Abbreviation sort_entries := (sorted_reverse entry_sort_key date_lt).

Lemma sort_entries_perm l s : sort_entries l = Ok s → s ≡ₚ l.
Proof. apply (sort_reverse_perm entry_lt entry_ltb entry_lt_refines). Qed.

Lemma sort_entries_sorted l s :
  sort_entries l = Ok s → StronglySorted (descending entry_ltb) s.
Proof.
  apply (sort_reverse_sorted entry_lt entry_ltb entry_lt_refines
           entry_ltb_asym entry_ltb_trans).
Qed.

Lemma sort_entries_ok l : is_Ok (sort_entries l) ↔ all_comparable entry_lt l.
Proof.
  apply (sort_reverse_ok entry_lt entry_ltb entry_lt_refines
           entry_ltb_asym entry_ltb_trans entry_lt_sym_ok entry_lt_up).
Qed.

Lemma sort_entries_raises l e : sort_entries l = Raise e → e = TypeError.
Proof. apply (sort_reverse_raises entry_lt entry_lt_raises). Qed.

(** Two entries or more can be sorted only when each has a sort key. *)
Lemma all_comparable_entries_dated (l : list FeedEntry) :
  (2 <= length l)%nat → all_comparable entry_lt l →
  Forall (fun e => is_Some (entry_sort_key e)) l.
Proof.
  destruct l as [|x [|y r]]; simpl; [lia | lia | intros _].
  intros [Hx _]%StronglySorted_cons.
  rewrite Forall_forall in Hx.
  assert (Hxy : comparable entry_lt x y) by (apply Hx; left).
  apply entry_comparable_iff in Hxy as [Hxs _].
  constructor; [done|]. apply Forall_forall. intros z Hz.
  by apply Hx, entry_comparable_iff in Hz as [_ ?].
Qed.

Lemma sort_entries_undated (l : list FeedEntry) (e : FeedEntry) :
  (2 <= length l)%nat → e ∈ l → entry_sort_key e = None →
  sort_entries l = Raise TypeError.
Proof.
  intros Hlen He Hkey.
  apply (sort_reverse_not_ok entry_lt entry_ltb entry_lt_refines
           entry_ltb_asym entry_ltb_trans entry_lt_sym_ok entry_lt_up
           entry_lt_raises).
  intros Hl%all_comparable_entries_dated; [|done].
  rewrite Forall_forall in Hl. specialize (Hl e He).
  rewrite Hkey in Hl. by destruct Hl.
Qed.
End EntrySort.

(** ** The scheduling loop *)

Lemma visit_feed_candidates (w : World) (st : PoolState) (url : string) :
  visit_feed w st url = fold_left submit_entry (feed_candidates w url) st.
Proof. unfold visit_feed, feed_candidates. by destruct (feed_entries w url). Qed.

Lemma schedule_candidates (w : World) (urls : list string) (st : PoolState) :
  fold_left (visit_feed w) urls st = fold_left submit_entry (candidates w urls) st.
Proof.
  revert st. induction urls as [|url urls IH]; intros st; simpl; [done|].
  by rewrite fold_left_app, IH, visit_feed_candidates.
Qed.

Lemma submit_entry_seen (st : PoolState) (entry : FeedEntry) :
  seen_links st ⊆ seen_links (submit_entry st entry)
  ∧ ∀ l, entry_link entry = Some l → PyStr.truthy l = true →
         l ∈ seen_links (submit_entry st entry).
Proof.
  unfold submit_entry. destruct (entry_link entry) as [l|]; [|by split].
  destruct (PyStr.truthy l) eqn:Hl; simpl.
  - case_bool_decide as Hseen; simpl.
    + split; [done|]. by intros ? [= <-] _.
    + split; [set_solver|]. intros ? [= <-] _. set_solver.
  - split; [done|]. intros ? [= <-]. congruence.
Qed.

Lemma submit_entry_futures (st : PoolState) (entry : FeedEntry) :
  futures (submit_entry st entry) = futures st
  ∨ (futures (submit_entry st entry) = futures st ++ [entry]
     ∧ ∃ l, entry_link entry = Some l ∧ PyStr.truthy l = true ∧ l ∉ seen_links st).
Proof.
  unfold submit_entry. destruct (entry_link entry) as [l|]; [|by left].
  destruct (PyStr.truthy l) eqn:Hl; simpl; [|by left].
  case_bool_decide as Hseen; simpl; [by left|].
  right. split; [done|]. by exists l.
Qed.

Lemma submit_entry_inv (st : PoolState) (entry : FeedEntry) :
  pool_inv st → pool_inv (submit_entry st entry).
Proof.
  intros [Hnodup Hseen].
  destruct (submit_entry_seen st entry) as [Hsub Hnew].
  unfold pool_inv.
  destruct (submit_entry_futures st entry) as [Hf|[Hf (l & Hl & Ht & Hfresh)]];
    rewrite Hf; split.
  - done.
  - intros e He. destruct (Hseen e He) as (l & ? & ? & ?).
    exists l. split_and!; [done..|]. by apply Hsub.
  - rewrite fmap_app. apply NoDup_app. split_and!; [done| |apply NoDup_singleton].
    intros x Hx ->%list_elem_of_singleton.
    apply list_elem_of_fmap in Hx as (e & Hex & He).
    destruct (Hseen e He) as (l' & Hl' & _ & Hin). congruence.
  - intros e [He|He]%elem_of_app; [|apply list_elem_of_singleton in He as ->].
    + destruct (Hseen e He) as (l' & ? & ? & ?).
      exists l'. split_and!; [done..|]. by apply Hsub.
    + exists l. split_and!; [done..|]. by apply Hnew.
Qed.

Lemma submit_all_inv (entries : list FeedEntry) (st : PoolState) :
  pool_inv st → pool_inv (fold_left submit_entry entries st).
Proof.
  revert st. induction entries as [|e entries IH]; intros st Hst; simpl; [done|].
  by apply IH, submit_entry_inv.
Qed.

(** First claim wins: a submitted entry is the first of the candidates with
    its link. *)
Lemma submit_all_first (entries : list FeedEntry) (st : PoolState) (e : FeedEntry) :
  e ∈ futures (fold_left submit_entry entries st) →
  e ∈ futures st
  ∨ ∃ i l, entries !! i = Some e ∧ entry_link e = Some l
           ∧ PyStr.truthy l = true ∧ (l ∉ seen_links st)
           ∧ ∀ j e', (j < i)%nat → entries !! j = Some e' → entry_link e' ≠ Some l.
Proof.
  revert st. induction entries as [|x entries IH]; intros st He; simpl in *; [by left|].
  destruct (submit_entry_seen st x) as [Hsub Hnew].
  apply IH in He as [He|(i & l & Hi & Hl & Ht & Hfresh & Hfirst)].
  - destruct (submit_entry_futures st x) as [Hf|[Hf (l & Hl & Ht & Hfresh)]];
      rewrite Hf in He; [by left|].
    apply elem_of_app in He as [He|He]; [by left|].
    apply list_elem_of_singleton in He as ->.
    right. exists 0%nat, l. split_and!; [done..|]. intros j e' Hj. lia.
  - right. exists (S i), l. split_and!; [done..| |].
    + intros Hin. by apply Hfresh, Hsub.
    + intros [|j] e' Hj Hje'; simpl in Hje'.
      * injection Hje' as <-. intros Hx. by apply Hfresh, Hnew.
      * apply (Hfirst j); [lia | done].
Qed.

Lemma pool_inv_init : pool_inv {| seen_links := ∅; futures := [] |}.
Proof. split; [constructor | intros e He; by apply elem_of_nil in He]. Qed.

Lemma submitted_candidates (w : World) :
  submitted w
  = futures (fold_left submit_entry (candidates w feed_urls)
                       {| seen_links := ∅; futures := [] |}).
Proof. unfold submitted, schedule. by rewrite schedule_candidates. Qed.

Lemma submitted_nodup (w : World) : NoDup (entry_link <$> submitted w).
Proof. rewrite submitted_candidates. apply submit_all_inv, pool_inv_init. Qed.

Lemma submitted_first (w : World) (e : FeedEntry) :
  e ∈ submitted w →
  ∃ i l, candidates w feed_urls !! i = Some e ∧ entry_link e = Some l
         ∧ PyStr.truthy l = true
         ∧ ∀ j e', (j < i)%nat → candidates w feed_urls !! j = Some e' →
                   entry_link e' ≠ Some l.
Proof.
  rewrite submitted_candidates. intros [He|(i & l & ? & ? & ? & _ & ?)]%submit_all_first.
  - by apply elem_of_nil in He.
  - by exists i, l.
Qed.

(** ** Collecting and ranking *)

Lemma omap_id_fmap {A B : Type} (f : A → option B) (l : list A) :
  omap id (f <$> l) = omap f l.
Proof.
  induction l as [|x l IH]; [done|].
  rewrite fmap_cons. cbn [omap list_omap]. rewrite <- IH. by destruct (f x).
Qed.

(** The list built by the collecting loop is a rearrangement of it. *)
Lemma collected_matched (w : World) (c : Completion) (keywords : list string) :
  omap id (as_completed c
             ((fun entry => fetch_article_content w entry keywords) <$> submitted w))
  ≡ₚ matched w keywords.
Proof. unfold matched. by rewrite as_completed_perm, omap_id_fmap. Qed.

Lemma fetch_and_filter_articles_rank (w : World) (c : Completion) (query : string) :
  ∃ l, l ≡ₚ matched w (PyStr.split (PyStr.lower query))
       ∧ fetch_and_filter_articles w c query = rank query l.
Proof.
  eexists. split; [apply (collected_matched w c)|]. done.
Qed.

Lemma matched_elem (w : World) (keywords : list string) (a : ScoredArticle) :
  a ∈ matched w keywords ↔
  ∃ entry, entry ∈ submitted w ∧ fetch_article_content w entry keywords = Some a.
Proof. unfold matched. by rewrite list_elem_of_omap. Qed.

Lemma matched_links_nodup (w : World) (keywords : list string) :
  NoDup (link <$> matched w keywords).
Proof.
  unfold matched. pose proof (submitted_nodup w) as Hnodup.
  induction (submitted w) as [|e l IH]; simpl; [constructor|].
  rewrite fmap_cons in Hnodup. apply NoDup_cons in Hnodup as [He Hnodup].
  destruct (fetch_article_content w e keywords) as [a|] eqn:Ha; simpl; [|by apply IH].
  apply NoDup_cons. split; [|by apply IH].
  intros (a' & Hlink & Ha')%list_elem_of_fmap.
  apply list_elem_of_omap in Ha' as (e' & He' & Hfe').
  apply fetch_article_content_some in Ha as (Hl & _).
  apply fetch_article_content_some in Hfe' as (Hl' & _).
  apply He. apply list_elem_of_fmap. exists e'. split; [congruence | done].
Qed.

Lemma output_links_articles (l : list ScoredArticle) :
  output_links (Article <$> l) = link <$> l.
Proof.
  induction l as [|a l IH]; [done|].
  rewrite !fmap_cons, <- IH. done.
Qed.

Lemma rank_inv (query : string) (l : list ScoredArticle) (out : list OutputRecord) :
  rank query l = Ok out →
  (l = [] ∧ out = [Message (no_articles_message query)])
  ∨ (l ≠ [] ∧ ∃ s, sorted_reverse article_sort_key key_lt l = Ok s
                   ∧ out = Article <$> take max_results s).
Proof.
  unfold rank. destruct l as [|a l]; [intros [= <-]; by left|].
  destruct (sorted_reverse _ _ _) as [s|e] eqn:Hs; simpl; [|done].
  intros [= <-]. right. split; [done|]. by exists s.
Qed.

Lemma article_elem_of_output (a : ScoredArticle) (l : list ScoredArticle) :
  Article a ∈ Article <$> l → a ∈ l.
Proof. intros (a' & [= ->] & Ha)%list_elem_of_fmap. done. Qed.

(** Every article of an output list is one of the run's articles. *)
Lemma output_article_matched (w : World) (c : Completion) (query : string)
      (out : list OutputRecord) (a : ScoredArticle) :
  fetch_and_filter_articles w c query = Ok out → Article a ∈ out →
  a ∈ matched w (PyStr.split (PyStr.lower query)).
Proof.
  destruct (fetch_and_filter_articles_rank w c query) as (l & Hperm & ->).
  intros [[_ ->]|(_ & s & Hs & ->)]%rank_inv Ha.
  - apply list_elem_of_singleton in Ha. done.
  - apply article_elem_of_output in Ha. apply subseteq_take in Ha.
    apply sort_articles_perm in Hs. by rewrite <- Hperm, <- Hs.
Qed.

(** * The claims *)


(** C2: the tasks scheduled have pairwise different links, no two articles
    of the returned list share a link, and each returned article was scored
    from the first entry, in the order of the loop over the feeds, that
    carries its link. *)
Theorem links_deduplicated_first_claim_wins (w : World) (c : Completion)
        (query : string) (out : list OutputRecord) :
  fetch_and_filter_articles w c query = Ok out →
  NoDup (entry_link <$> submitted w)
  ∧ NoDup (output_links out)
  ∧ ∀ a, Article a ∈ out →
      ∃ i entry,
        candidates w feed_urls !! i = Some entry
        ∧ fetch_article_content w entry (PyStr.split (PyStr.lower query)) = Some a
        ∧ ∀ j e', (j < i)%nat → candidates w feed_urls !! j = Some e' →
                  entry_link e' ≠ Some (link a).
Proof.
  intros Hout. split; [apply submitted_nodup|]. split.
  - destruct (fetch_and_filter_articles_rank w c query) as (l & Hperm & Hrank).
    rewrite Hrank in Hout.
    apply rank_inv in Hout as [[_ ->]|(_ & s & Hs & ->)]; [constructor|].
    rewrite output_links_articles.
    rewrite fmap_take.
    eapply sublist_NoDup; [|apply sublist_take].
    apply sort_articles_perm in Hs. rewrite Hs, Hperm.
    apply matched_links_nodup.
  - intros a Ha.
    apply (output_article_matched _ _ _ _ _ Hout), matched_elem in Ha
      as (e & He & Ha).
    apply submitted_first in He as (i & l & Hi & Hl & _ & Hfirst).
    exists i, e. split_and!; [done..|].
    apply fetch_article_content_some in Ha as (Hla & _).
    assert (l = link a) as <- by congruence. exact Hfirst.
Qed.

(** The returned list, when the final sort succeeds: the ten first of a
    rearrangement of the articles of the run in which no article has a
    smaller key than a later one. *)
Lemma ranking_sorted_top (w : World) (c : Completion) (query : string)
      (out : list OutputRecord) :
  fetch_and_filter_articles w c query = Ok out →
  matched w (PyStr.split (PyStr.lower query)) ≠ [] →
  ∃ s, s ≡ₚ matched w (PyStr.split (PyStr.lower query))
       ∧ StronglySorted (descending article_ltb) s
       ∧ out = Article <$> take max_results s
       ∧ (1 <= length out <= 10)%nat.
Proof.
  destruct (fetch_and_filter_articles_rank w c query) as (l & Hperm & ->).
  intros [[-> _]|(Hne & s & Hs & ->)]%rank_inv Hmatched.
  - by apply Permutation_nil in Hperm.
  - exists s. pose proof (sort_articles_perm _ _ Hs) as Hps.
    split_and!; [by rewrite Hps | by eapply sort_articles_sorted | done | |].
    + rewrite length_fmap, length_take.
      assert (length s ≠ 0)%nat; [|unfold max_results; lia].
      rewrite Hps. by destruct l.
    + rewrite length_fmap, length_take. unfold max_results. lia.
Qed.

(** The final sort raises exactly when two articles of the run have the
    same score and only one of them has a publication date. *)
Lemma ranking_raises_iff (w : World) (c : Completion) (query : string) :
  fetch_and_filter_articles w c query = Raise TypeError
  ↔ ¬ all_comparable article_lt (matched w (PyStr.split (PyStr.lower query))).
Proof.
  destruct (fetch_and_filter_articles_rank w c query) as (l & Hperm & ->).
  assert (Hiff : all_comparable article_lt l
                 ↔ all_comparable article_lt (matched w (PyStr.split (PyStr.lower query)))).
  { split; apply pairwise_Permutation; try apply comparable_sym; done. }
  rewrite <- Hiff, <- sort_articles_ok. unfold rank.
  destruct l as [|a l].
  - split; [done|]. intros []. by eexists.
  - destruct (sorted_reverse _ _ _) as [s|e] eqn:Hs; simpl.
    + split; [done|]. intros []. by eexists.
    + apply sort_articles_raises in Hs as ->. split; [|done].
      intros _ [s Hs]. done.
Qed.

Lemma all_comparable_dated (l : list ScoredArticle) :
  Forall (fun a => is_Some (publish_date a)) l → all_comparable article_lt l.
Proof.
  induction 1 as [|a l Ha Hl IH]; constructor; [done|].
  eapply Forall_impl; [exact Hl|]. intros b Hb. apply article_comparable_iff.
  right. tauto.
Qed.

(** C6: when no submitted task returns an article, and in particular when
    every feed fails to parse, the run returns the single informational
    record that quotes the query as it was given. *)
Theorem no_match_returns_message (w : World) (c : Completion) (query : string) :
  ((∀ entry, entry ∈ submitted w →
             fetch_article_content w entry (PyStr.split (PyStr.lower query)) = None) →
   fetch_and_filter_articles w c query
   = Ok [Message ("No articles found containing the query '" +:+ query +:+ "'.")])
  ∧ ((∀ url, url ∈ feed_urls → ∃ e, feedparser_parse w url = Raise e) →
     fetch_and_filter_articles w c query
     = Ok [Message ("No articles found containing the query '" +:+ query +:+ "'.")]).
Proof.
  assert (Hnone : matched w (PyStr.split (PyStr.lower query)) = [] →
                  fetch_and_filter_articles w c query
                  = Ok [Message (no_articles_message query)]).
  { intros Hm. destruct (fetch_and_filter_articles_rank w c query) as (l & Hperm & ->).
    rewrite Hm in Hperm. apply Permutation_nil_r in Hperm as ->. done. }
  split; intros H; apply Hnone.
  - unfold matched. induction (submitted w) as [|e l IH]; [done|].
    simpl. rewrite (H e) by left. apply IH. intros e' He'. apply H. by right.
  - assert (Hsub : submitted w = []); [|unfold matched; by rewrite Hsub].
    rewrite submitted_candidates.
    assert (Hc : candidates w feed_urls = []); [|by rewrite Hc].
    unfold candidates. induction feed_urls as [|url urls IH]; [done|].
    simpl. rewrite IH by (intros u Hu; apply H; by right).
    destruct (H url) as [e He]; [by left|].
    unfold feed_candidates, feed_entries. by rewrite He.
Qed.


Lemma fetch_article_content_no_keywords (w : World) (entry : FeedEntry) (l : string) :
  entry_link entry = Some l → PyStr.truthy l = true →
  is_Some (fetch_article_content w entry [])
  ↔ 0 < recency_of w l (entry_publish_date entry).
Proof.
  intros Hlink Htruthy. unfold fetch_article_content.
  rewrite Hlink, Htruthy. cbn [negb title_score_of content_score_of fold_left].
  rewrite !Z.add_0_l. destruct (Z.ltb_spec 0 (recency_of w l (entry_publish_date entry))).
  - split; [done | by eexists].
  - split; [by intros [? ?] | lia].
Qed.

(** C8, as the code has it: an empty query raises nothing. Its keyword
    list is empty, so an entry scores its recency bonus alone and is a match
    exactly when that bonus is positive; the run returns a list whose
    articles are entries published less than seven days before (score 3 or
    5, no title or content match), or the informational record. *)
Theorem empty_query_scores_recency_only (w : World) (c : Completion) :
  PyStr.split (PyStr.lower "") = []
  ∧ (∀ entry l, entry_link entry = Some l → PyStr.truthy l = true →
       is_Some (fetch_article_content w entry (PyStr.split (PyStr.lower "")))
       ↔ 0 < recency_of w l (entry_publish_date entry))
  ∧ ∃ out, fetch_and_filter_articles w c "" = Ok out
    ∧ ∀ a, Article a ∈ out →
        title_matches (match_details a) = 0
        ∧ content_matches (match_details a) = 0
        ∧ relevance_score a = recency_bonus (match_details a)
        ∧ (relevance_score a = 3 ∨ relevance_score a = 5)
        ∧ is_Some (publish_date a).
Proof.
  split; [done|]. split; [apply fetch_article_content_no_keywords|].
  assert (Hm : ∀ a, a ∈ matched w [] →
                 title_matches (match_details a) = 0
                 ∧ content_matches (match_details a) = 0
                 ∧ relevance_score a = recency_bonus (match_details a)
                 ∧ (relevance_score a = 3 ∨ relevance_score a = 5)
                 ∧ is_Some (publish_date a)).
  { intros a (e & _ & Ha)%matched_elem.
    apply fetch_article_content_some in Ha
      as (_ & _ & _ & _ & _ & Hscore & Htm & Hcm & Hrb & Hpos).
    unfold title_score_of, content_score_of in *. cbn [fold_left] in *.
    change (0 `div` 10) with 0 in Htm. rewrite <- Hrb in Hscore.
    split_and!; [done | done | lia | |].
    - destruct (recency_of_values w (link a) (publish_date a)) as [?|[?|?]]; lia.
    - apply (recency_of_positive_dated w (link a)). lia. }
  destruct (fetch_and_filter_articles w c "") as [out|e] eqn:Hout.
  - exists out. split; [done|]. intros a Ha. apply Hm.
    by apply (output_article_matched _ _ _ _ _ Hout).
  - exfalso.
    assert (He : e = TypeError).
    { destruct (fetch_and_filter_articles_rank w c "") as (l & _ & Hrank).
      rewrite Hrank in Hout. unfold rank in Hout. destruct l; [done|].
      destruct (sorted_reverse _ _ _) eqn:Hs; [done|].
      simpl in Hout. injection Hout as <-. by eapply sort_articles_raises. }
    subst e. apply ranking_raises_iff in Hout. apply Hout.
    apply all_comparable_dated, Forall_forall. intros a Ha. by apply Hm.
Qed.

(** ** A feed that cannot be sorted *)

Lemma fetch_article_content_feed_unavailable w url entry keywords :
  fetch_article_content (feed_unavailable w url) entry keywords
  = fetch_article_content w entry keywords.
Proof. done. Qed.

Lemma visit_feed_unavailable (w : World) (url : string) (st : PoolState) (u : string) :
  (∃ e, feed_entries w url = Raise e) →
  visit_feed (feed_unavailable w url) st u = visit_feed w st u.
Proof.
  intros [e He]. unfold visit_feed, feed_entries at 1. simpl.
  destruct (String.eqb_spec u url) as [->|Hne]; [by rewrite He|]. done.
Qed.

Lemma submitted_feed_unavailable (w : World) (url : string) :
  (∃ e, feed_entries w url = Raise e) →
  submitted (feed_unavailable w url) = submitted w.
Proof.
  intros He. unfold submitted, schedule.
  generalize ({| seen_links := ∅; futures := [] |}).
  induction feed_urls as [|u urls IH]; intros st; simpl; [done|].
  by rewrite visit_feed_unavailable, IH.
Qed.

(** C10: when the sort of a feed's entries raises, which it does as soon
    as the window holds two entries or more and one of them has no sort
    key, the feed contributes no task, its dated entries included, the loop
    goes on from the same state, and the run is the run in which that feed
    could not be parsed. *)
Theorem sort_error_skips_whole_feed (w : World) (c : Completion)
        (query url : string) (feed : list FeedEntry) (st : PoolState) :
  feedparser_parse w url = Ok feed →
  let window := take max_articles_per_feed feed in
  ((2 <= length window)%nat →
   (∃ entry, entry ∈ window ∧ entry_sort_key entry = None) →
   sorted_reverse entry_sort_key date_lt window = Raise TypeError)
  ∧ ∀ e, sorted_reverse entry_sort_key date_lt window = Raise e →
      visit_feed w st url = st
      ∧ feed_candidates w url = []
      ∧ fetch_and_filter_articles w c query
        = fetch_and_filter_articles (feed_unavailable w url) c query.
Proof.
  intros Hfeed window. split.
  - intros Hlen (entry & Hin & Hkey). by eapply sort_entries_undated.
  - intros e He.
    assert (Hraise : feed_entries w url = Raise e).
    { unfold feed_entries. rewrite Hfeed. exact He. }
    split_and!.
    + unfold visit_feed. by rewrite Hraise.
    + unfold feed_candidates. by rewrite Hraise.
    + unfold fetch_and_filter_articles.
      rewrite submitted_feed_unavailable by (by exists e). done.
Qed.

(** The entries of a feed that reach the loop. *)
Lemma feed_entries_window (w : World) (url : string) (entries : list FeedEntry) :
  feed_entries w url = Ok entries →
  ∃ feed, feedparser_parse w url = Ok feed
          ∧ entries ≡ₚ take max_articles_per_feed feed
          ∧ StronglySorted (descending entry_ltb) entries.
Proof.
  unfold feed_entries. destruct (feedparser_parse w url) as [feed|]; simpl; [|done].
  intros Hs. exists feed. split_and!; [done | |].
  - by eapply sort_entries_perm.
  - by eapply sort_entries_sorted.
Qed.

Lemma candidates_window (w : World) (urls : list string) (e : FeedEntry) :
  e ∈ candidates w urls →
  ∃ url feed, url ∈ urls ∧ feedparser_parse w url = Ok feed
              ∧ e ∈ take max_articles_per_feed feed.
Proof.
  unfold candidates. induction urls as [|u urls IH]; simpl.
  - intros He. by apply elem_of_nil in He.
  - intros [He|He]%elem_of_app.
    + unfold feed_candidates in He.
      destruct (feed_entries w u) as [entries|] eqn:Hu;
        [|by apply elem_of_nil in He].
      apply feed_entries_window in Hu as (feed & Hfeed & Hperm & _).
      exists u, feed. split_and!; [by left | done | by rewrite <- Hperm].
    + destruct (IH He) as (url & feed & ? & ? & ?).
      exists url, feed. split_and!; [by right | done..].
Qed.

(** C4, as the code has it: the window is cut before the sort. Every entry
    submitted is one of the first 15 entries of a feed in the order of the
    feed, and the entries of a feed reach the loop as a rearrangement of
    that window in which no entry is older than a later one. *)
Theorem submitted_within_leading_window (w : World) :
  (∀ entry, entry ∈ submitted w →
     ∃ url feed, url ∈ feed_urls ∧ feedparser_parse w url = Ok feed
                 ∧ entry ∈ take max_articles_per_feed feed)
  ∧ ∀ url entries, feed_entries w url = Ok entries →
      ∃ feed, feedparser_parse w url = Ok feed
              ∧ entries ≡ₚ take max_articles_per_feed feed
              ∧ (length entries <= 15)%nat
              ∧ StronglySorted (descending entry_ltb) entries.
Proof.
  split.
  - intros entry (i & l & Hi & _)%submitted_first.
    apply candidates_window. by eapply list_elem_of_lookup_2.
  - intros url entries (feed & ? & Hperm & ?)%feed_entries_window.
    exists feed. split_and!; [done..| |done].
    rewrite Hperm, length_take. unfold max_articles_per_feed. lia.
Qed.


(** * The claims on the scenarios *)

Section OnScenarios.
Import Scenario.


(** Two feeds carry the link "a"; one article with it is returned. *)
Lemma links_deduplicated_witness :
  ∃ out, fetch_and_filter_articles world_duplicate completion_in_order
           "ocean warming" = Ok out
         ∧ output_links out = ["a"; "b"]
         ∧ NoDup (output_links out).
Proof.
  eexists. split; [vm_compute; reflexivity|]. split; [vm_compute; reflexivity|].
  eapply (links_deduplicated_first_claim_wins world_duplicate completion_in_order
            "ocean warming").
  vm_compute. reflexivity.
Defined.

(** C3: two articles with the same score, one without a publication date:
    the final sort compares [None] with a [struct_time] and the run raises
    [TypeError], in whatever order the tasks complete. *)
Theorem final_sort_raises_on_mixed_dates :
  relevance_score <$> matched world_mixed (PyStr.split (PyStr.lower "ocean")) = [10; 10]
  ∧ publish_date <$> matched world_mixed (PyStr.split (PyStr.lower "ocean"))
    = [None; Some (day 1)]
  ∧ ∀ c, fetch_and_filter_articles world_mixed c "ocean" = Raise TypeError.
Proof.
  split; [vm_compute; reflexivity|]. split; [vm_compute; reflexivity|].
  intros c. apply ranking_raises_iff. intros Hc.
  unfold all_comparable in Hc. vm_compute in Hc.
  apply StronglySorted_cons in Hc as [Hc _].
  apply Forall_cons in Hc as [[[r Hr] _] _]. discriminate Hr.
Qed.

(** The oldest of sixteen entries is processed although it is not among
    the fifteen most recent ones. *)
Lemma leading_window_is_not_most_recent :
  most_recent_window feed_sixteen = Ok (numbered_entry <$> rev (seq 2 15))
  ∧ ¬ (∀ entry, entry ∈ submitted world_sixteen →
                entry ∈ numbered_entry <$> rev (seq 2 15)).
Proof.
  split; [vm_compute; reflexivity|]. intros Hsub.
  assert (Hin : numbered_entry 1 ∈ submitted world_sixteen).
  { apply (list_elem_of_lookup_2 _ 14). vm_compute. reflexivity. }
  apply Hsub in Hin. vm_compute in Hin.
  repeat (apply elem_of_cons in Hin as [Hin|Hin]; [discriminate Hin|]).
  by apply elem_of_nil in Hin.
Qed.

Lemma submitted_within_leading_window_witness :
  numbered_entry 1 ∈ submitted world_sixteen
  ∧ ∃ url feed, url ∈ feed_urls
      ∧ feedparser_parse world_sixteen url = Ok feed
      ∧ numbered_entry 1 ∈ take max_articles_per_feed feed.
Proof.
  assert (Hin : numbered_entry 1 ∈ submitted world_sixteen).
  { apply (list_elem_of_lookup_2 _ 14). vm_compute. reflexivity. }
  split; [exact Hin|].
  exact (proj1 (submitted_within_leading_window world_sixteen) _ Hin).
Defined.


Lemma no_match_returns_message_witness :
  fetch_and_filter_articles world_down completion_in_order "Ocean"
  = Ok [Message "No articles found containing the query 'Ocean'."]
  ∧ fetch_and_filter_articles world_duplicate completion_reversed "Budget"
    = Ok [Message "No articles found containing the query 'Budget'."].
Proof.
  split.
  - apply (proj2 (no_match_returns_message world_down completion_in_order "Ocean")).
    intros url _. exists RetrievalError. unfold world_down, offline_world. simpl.
    destruct (String.eqb url nyt); [reflexivity|].
    destruct (String.eqb url bbc); reflexivity.
  - apply (proj1 (no_match_returns_message world_duplicate completion_reversed "Budget")).
    intros entry Hentry. vm_compute in Hentry.
    apply elem_of_cons in Hentry as [->|Hentry]; [vm_compute; reflexivity|].
    apply list_elem_of_singleton in Hentry as ->. vm_compute. reflexivity.
Defined.



(** An empty query raises nothing and returns the recent entry as a match. *)
Lemma empty_query_returns_a_match :
  fetch_and_filter_articles world_recent completion_in_order ""
  = Ok [Article {| title := "Budget vote"; content := ""; link := "n";
                   publish_date := Some (mk_struct_time 2024 4 9 10 0 0 1 100 0);
                   relevance_score := 5;
                   match_details := {| title_matches := 0; content_matches := 0;
                                       recency_bonus := 5 |} |}].
Proof. vm_compute. reflexivity. Qed.

Lemma empty_query_scores_recency_only_witness :
  (entry_link recent_entry = Some "n" ∧ PyStr.truthy "n" = true)
  ∧ is_Some (fetch_article_content world_recent recent_entry
               (PyStr.split (PyStr.lower "")))
  ∧ 0 < recency_of world_recent "n" (entry_publish_date recent_entry).
Proof.
  assert (Hpos : 0 < recency_of world_recent "n" (entry_publish_date recent_entry)).
  { vm_compute. reflexivity. }
  split; [split; reflexivity|]. split; [|exact Hpos].
  apply (proj1 (proj2 (empty_query_scores_recency_only world_recent completion_in_order))
           recent_entry "n" eq_refl eq_refl).
  exact Hpos.
Defined.

(** A feed with an undated entry and a dated one is skipped as a whole. *)
Lemma sort_error_skips_whole_feed_witness :
  feedparser_parse world_undated nyt
  = Ok [undated_entry "Ocean" "a"; dated_entry "Ocean" "b" (day 1)]
  ∧ feed_candidates world_undated nyt = []
  ∧ fetch_and_filter_articles world_undated completion_in_order "ocean"
    = fetch_and_filter_articles (feed_unavailable world_undated nyt)
        completion_in_order "ocean".
Proof.
  split; [reflexivity|].
  destruct (sort_error_skips_whole_feed world_undated completion_in_order "ocean" nyt
              [undated_entry "Ocean" "a"; dated_entry "Ocean" "b" (day 1)]
              {| seen_links := ∅; futures := [] |} eq_refl) as [Hraise Hskip].
  assert (Hr : sorted_reverse entry_sort_key date_lt
                 (take max_articles_per_feed
                    [undated_entry "Ocean" "a"; dated_entry "Ocean" "b" (day 1)])
               = Raise TypeError).
  { apply Hraise; [simpl; lia|].
    exists (undated_entry "Ocean" "a"). split; [left | reflexivity]. }
  destruct (Hskip _ Hr) as (_ & Hnone & Hsame). split; [exact Hnone | exact Hsame].
Defined.

End OnScenarios.

(** * Further properties of the pipeline *)

(** ** The extractor *)



(** ** The scorer *)



(** ** The scheduling loop *)

Lemma submit_entry_length (st : PoolState) (entry : FeedEntry) :
  (length (futures (submit_entry st entry)) <= S (length (futures st)))%nat.
Proof.
  destruct (submit_entry_futures st entry) as [->|[-> _]]; [lia|].
  rewrite length_app. simpl. lia.
Qed.

Lemma submit_all_length (entries : list FeedEntry) (st : PoolState) :
  (length (futures (fold_left submit_entry entries st))
   <= length (futures st) + length entries)%nat.
Proof.
  revert st. induction entries as [|e entries IH]; intros st; simpl; [lia|].
  pose proof (IH (submit_entry st e)). pose proof (submit_entry_length st e). lia.
Qed.

Lemma feed_candidates_length (w : World) (url : string) :
  (length (feed_candidates w url) <= max_articles_per_feed)%nat.
Proof.
  unfold feed_candidates. destruct (feed_entries w url) as [es|] eqn:Hes; [|simpl; lia].
  apply feed_entries_window in Hes as (feed & _ & Hperm & _).
  rewrite Hperm, length_take. lia.
Qed.

Lemma candidates_length (w : World) (urls : list string) :
  (length (candidates w urls) <= max_articles_per_feed * length urls)%nat.
Proof.
  unfold candidates. induction urls as [|u urls IH]; simpl; [lia|].
  rewrite length_app. pose proof (feed_candidates_length w u).
  unfold max_articles_per_feed in *. lia.
Qed.

Lemma submit_all_sublist (entries : list FeedEntry) (st : PoolState) :
  ∃ new, futures (fold_left submit_entry entries st) = futures st ++ new
         ∧ new `sublist_of` entries.
Proof.
  revert st. induction entries as [|x entries IH]; intros st; simpl.
  - exists []. by rewrite app_nil_r.
  - destruct (IH (submit_entry st x)) as (new & -> & Hsub).
    destruct (submit_entry_futures st x) as [->|[-> _]].
    + exists new. split; [done | by apply sublist_cons].
    + exists (x :: new). split; [by rewrite <- app_assoc | by apply sublist_skip].
Qed.

(** X3: at most 30 tasks are submitted in a run, 15 for each of the two
    feeds; each of them is for an entry with a non-empty link, and they are
    submitted in the order in which the loop meets their entries. *)
Theorem submitted_bounded (w : World) :
  (length (submitted w) <= 30)%nat
  ∧ (∀ entry, entry ∈ submitted w →
       ∃ l, entry_link entry = Some l ∧ l ≠ "")
  ∧ submitted w `sublist_of` candidates w feed_urls.
Proof.
  split_and!.
  - rewrite submitted_candidates.
    pose proof (submit_all_length (candidates w feed_urls)
                  {| seen_links := ∅; futures := [] |}) as H1.
    pose proof (candidates_length w feed_urls) as H2.
    simpl in *. unfold max_articles_per_feed in H2. lia.
  - intros entry (i & l & _ & Hl & Ht & _)%submitted_first.
    exists l. split; [done|]. by intros ->.
  - rewrite submitted_candidates.
    destruct (submit_all_sublist (candidates w feed_urls)
                {| seen_links := ∅; futures := [] |}) as (new & -> & Hsub).
    done.
Qed.

Lemma submit_entry_seen_exact (st : PoolState) (entry : FeedEntry) :
  seen_exact st → seen_exact (submit_entry st entry).
Proof.
  intros Hst l. unfold submit_entry.
  destruct (entry_link entry) as [l0|] eqn:Hl0; [|apply Hst].
  destruct (PyStr.truthy l0); simpl; [|apply Hst].
  case_bool_decide; simpl; [apply Hst|].
  intros [->%elem_of_singleton|Hin]%elem_of_union.
  - exists entry. split; [apply elem_of_app; right; by left | done].
  - destruct (Hst l Hin) as (e & He & Hel).
    exists e. split; [apply elem_of_app; by left | done].
Qed.

Lemma submit_all_claims (entries : list FeedEntry) (st : PoolState) :
  seen_exact st →
  seen_exact (fold_left submit_entry entries st)
  ∧ seen_links st ⊆ seen_links (fold_left submit_entry entries st)
  ∧ ∀ e l, e ∈ entries → entry_link e = Some l → PyStr.truthy l = true →
           l ∈ seen_links (fold_left submit_entry entries st).
Proof.
  revert st. induction entries as [|x entries IH]; intros st Hst; simpl.
  - split_and!; [done | done |]. intros e l He. by apply elem_of_nil in He.
  - destruct (IH (submit_entry st x) (submit_entry_seen_exact _ _ Hst))
      as (Hexact & Hsub & Hall).
    destruct (submit_entry_seen st x) as [Hsub1 Hnew].
    split_and!; [done | by intros l' Hl'; apply Hsub, Hsub1 |].
    intros e l [->|He]%elem_of_cons Hl Ht.
    + apply Hsub. by apply Hnew.
    + by eapply Hall.
Qed.

(** X4: no link is lost by the deduplication: for every entry of a window
    that was sorted, if it has a non-empty link then a task was submitted
    for that link. *)
Theorem every_link_is_claimed (w : World) (entry : FeedEntry) (l : string) :
  entry ∈ candidates w feed_urls → entry_link entry = Some l → l ≠ "" →
  ∃ first, first ∈ submitted w ∧ entry_link first = Some l.
Proof.
  intros Hin Hl Hne.
  assert (Ht : PyStr.truthy l = true) by (by destruct l).
  destruct (submit_all_claims (candidates w feed_urls)
              {| seen_links := ∅; futures := [] |}) as (Hexact & _ & Hall).
  { intros l' Hl'. simpl in Hl'. set_solver. }
  rewrite submitted_candidates. apply Hexact. by eapply Hall.
Qed.

(** ** The sort, once more *)

Section SortedInput.
Context {A : Type} (lt : A → A → result bool).

Lemma insert_sorted_last (p : A) (s : list A) :
  Forall (fun y => lt p y = Ok false) s → insert_sorted lt p s = Ok (s ++ [p]).
Proof.
  induction 1 as [|y s Hy _ IH]; simpl; [done|]. by rewrite Hy, IH.
Qed.

Lemma sort_asc_rev_sorted (l : list A) :
  StronglySorted (fun x y => lt x y = Ok false) l →
  sort_asc lt (rev l) = Ok (rev l).
Proof.
  induction 1 as [|x l _ IH Hx]; [done|]. simpl.
  rewrite sort_asc_snoc, IH. simpl. apply insert_sorted_last.
  apply Forall_forall. intros y Hy. rewrite Forall_forall in Hx. apply Hx.
  by apply list_elem_of_In, in_rev, list_elem_of_In in Hy.
Qed.

(** A list in which no element is smaller than a later one is left as it
    is by a sort with [reverse=True]. *)
Lemma sort_reverse_sorted_input (l : list A) :
  StronglySorted (fun x y => lt x y = Ok false) l → sort_reverse lt l = Ok l.
Proof.
  intros Hl. unfold sort_reverse. rewrite (sort_asc_rev_sorted l Hl). simpl.
  by rewrite rev_involutive.
Qed.
End SortedInput.

(** X5: a feed that is listed latest first, every entry of its window
    having a sort key, goes through the loop in the order of the feed: the
    sort changes nothing, and entries with equal dates keep their order. *)
Theorem latest_first_feed_kept_in_order (w : World) (url : string)
        (feed : list FeedEntry) :
  feedparser_parse w url = Ok feed →
  StronglySorted (fun x y => entry_lt x y = Ok false)
                 (take max_articles_per_feed feed) →
  feed_entries w url = Ok (take max_articles_per_feed feed).
Proof.
  intros Hfeed Hsorted. unfold feed_entries. rewrite Hfeed. simpl.
  by apply (sort_reverse_sorted_input entry_lt).
Qed.

(** X6: ranking is idempotent: the final sort applied to a list it has
    returned returns that list. *)
Theorem ranking_idempotent (l s : list ScoredArticle) :
  sorted_reverse article_sort_key key_lt l = Ok s →
  sorted_reverse article_sort_key key_lt s = Ok s.
Proof.
  intros Hs. apply (sort_reverse_sorted_input article_lt).
  assert (Hc : all_comparable article_lt s).
  { eapply pairwise_Permutation.
    - apply comparable_sym.
    - symmetry. by eapply sort_articles_perm.
    - apply sort_articles_ok. by eexists. }
  apply (StronglySorted_impl (fun x y => comparable article_lt x y
                                          ∧ descending article_ltb x y)).
  - intros x y _ _ [[[b Hb] _] Hd]. rewrite Hb. f_equal.
    rewrite <- (article_lt_refines _ _ _ Hb). exact Hd.
  - apply StronglySorted_and; [done | by eapply sort_articles_sorted].
Qed.

(** ** The run *)

Lemma output_articles_fmap (l : list ScoredArticle) :
  output_articles (Article <$> l) = l.
Proof.
  induction l as [|a l IH]; [done|]. rewrite fmap_cons.
  change (a :: output_articles (Article <$> l) = a :: l). by rewrite IH.
Qed.

(** X7: the list returned is never empty and has at most 10 elements. It
    is the informational record alone exactly when no task returned an
    article; otherwise it consists of articles only, as many as matched up
    to 10. *)
Theorem output_shape (w : World) (c : Completion) (query : string)
        (out : list OutputRecord) :
  fetch_and_filter_articles w c query = Ok out →
  let articles := matched w (PyStr.split (PyStr.lower query)) in
  (articles = [] ∧ out = [Message (no_articles_message query)])
  ∨ (articles ≠ []
     ∧ out = Article <$> output_articles out
     ∧ length out = Nat.min 10 (length articles)
     ∧ (1 <= length out <= 10)%nat).
Proof.
  intros Hout articles.
  destruct (fetch_and_filter_articles_rank w c query) as (l & Hperm & Hrank).
  fold articles in Hperm. rewrite Hrank in Hout.
  apply rank_inv in Hout as [[-> ->]|(Hne & s & Hs & ->)].
  - left. split; [|done]. by apply Permutation_nil in Hperm.
  - right. apply sort_articles_perm in Hs.
    assert (Hlen : length s = length articles) by (by rewrite Hs, Hperm).
    assert (length articles ≠ 0)%nat.
    { rewrite <- Hperm. by destruct l. }
    split_and!.
    + intros Ha. by rewrite Ha in *.
    + by rewrite output_articles_fmap.
    + rewrite length_fmap, length_take. unfold max_results. lia.
    + rewrite length_fmap, length_take. unfold max_results. lia.
    + rewrite length_fmap, length_take. unfold max_results. lia.
Qed.

Lemma descending_articles_dates (x y : ScoredArticle) :
  comparable article_lt x y → descending article_ltb x y →
  relevance_score y <= relevance_score x
  ∧ (relevance_score x = relevance_score y →
     not_older (publish_date x) (publish_date y)).
Proof.
  intros Hc Hd. apply descending_articles in Hd as [Hle Hdate].
  split; [done|]. intros Heq. specialize (Hdate Heq).
  apply article_comparable_iff in Hc as [?|Hc]; [done|].
  unfold not_older, date_ltb in *.
  destruct (publish_date x) as [tx|], (publish_date y) as [ty|]; simpl in *.
  - exact Hdate.
  - destruct Hc as [Hc _]. by destruct Hc as [? ?]; [eexists|].
  - destruct Hc as [_ Hc]. by destruct Hc as [? ?]; [eexists|].
  - done.
Qed.

(** X8: in a returned list the scores never increase from one article to
    a later one, articles of equal score are in the order of their dates,
    latest first, and an article that matched but was cut off has no
    higher score than any returned article. *)
Theorem output_ranked_and_best (w : World) (c : Completion) (query : string)
        (out : list OutputRecord) :
  fetch_and_filter_articles w c query = Ok out →
  (∀ i j a b, (i < j)%nat →
     output_articles out !! i = Some a → output_articles out !! j = Some b →
     relevance_score b <= relevance_score a
     ∧ (relevance_score a = relevance_score b →
        not_older (publish_date a) (publish_date b)))
  ∧ ∀ a b, a ∈ matched w (PyStr.split (PyStr.lower query)) →
           a ∉ output_articles out → b ∈ output_articles out →
           relevance_score a <= relevance_score b.
Proof.
  intros Hout.
  destruct (fetch_and_filter_articles_rank w c query) as (l & Hperm & Hrank).
  rewrite Hrank in Hout.
  apply rank_inv in Hout as [[-> ->]|(Hne & s & Hs & ->)].
  - split; [intros i j a b _ Hi; by destruct i|].
    intros a b _ _ Hb. by apply elem_of_nil in Hb.
  - rewrite output_articles_fmap.
    assert (Hc : all_comparable article_lt s).
    { eapply pairwise_Permutation.
      - apply comparable_sym.
      - symmetry. by eapply sort_articles_perm.
      - apply sort_articles_ok. by eexists. }
    pose proof (sort_articles_sorted _ _ Hs) as Hsorted.
    pose proof (StronglySorted_and _ _ _ Hc Hsorted) as Hboth.
    rewrite <- (take_drop max_results s) in Hboth.
    apply StronglySorted_app in Hboth as (Hcross & Htake & _).
    split.
    + intros i j a b Hij Hi Hj.
      apply list_elem_of_split_length in Hi as (l1 & l2 & Hsplit & Hlen).
      rewrite Hsplit in Htake, Hj.
      apply StronglySorted_app in Htake as (_ & _ & Htail).
      apply StronglySorted_cons in Htail as [Hfa _].
      rewrite lookup_app_r in Hj by lia.
      destruct (j - length l1)%nat as [|k] eqn:Hk; [lia|]. simpl in Hj.
      apply list_elem_of_lookup_2 in Hj.
      rewrite Forall_forall in Hfa. destruct (Hfa b Hj) as [Hcab Hdab].
      by apply descending_articles_dates.
    + intros a b Ha Hna Hb.
      assert (Has : a ∈ s).
      { apply sort_articles_perm in Hs. by rewrite Hs, Hperm. }
      rewrite <- (take_drop max_results s) in Has.
      apply elem_of_app in Has as [Has|Has]; [done|].
      destruct (Hcross b a Hb Has) as [_ Hd].
      by apply descending_articles in Hd as [? _].
Qed.

Lemma pairwise_elem {A : Type} (C : relation A) `{!Symmetric C} (l : list A) (a b : A) :
  StronglySorted C l → a ∈ l → b ∈ l → a ≠ b → C a b.
Proof.
  induction 1 as [|x l _ IH Hx]; intros Ha Hb Hne; [by apply elem_of_nil in Ha|].
  rewrite Forall_forall in Hx.
  apply elem_of_cons in Ha as [->|Ha]; apply elem_of_cons in Hb as [->|Hb].
  - done.
  - by apply Hx.
  - symmetry. by apply Hx.
  - by apply IH.
Qed.

Lemma not_pairwise_exists {A : Type} (C : relation A) (l : list A) :
  (∀ x y, C x y ∨ ¬ C x y) →
  ¬ StronglySorted C l → ∃ a b, a ∈ l ∧ b ∈ l ∧ ¬ C a b.
Proof.
  intros Hdec. induction l as [|x l IH]; intros Hns.
  - destruct Hns. constructor.
  - assert (Hx : Forall (C x) l ∨ ∃ y, y ∈ l ∧ ¬ C x y).
    { clear IH Hns. induction l as [|y l IHl]; [left; constructor|].
      destruct (Hdec x y) as [Hxy|Hxy].
      - destruct IHl as [Hall|(z & Hz & Hxz)].
        + left. by constructor.
        + right. exists z. split; [by right | done].
      - right. exists y. split; [by left | done]. }
    destruct Hx as [Hall|(y & Hy & Hxy)].
    + destruct IH as (a & b & Ha & Hb & Hab).
      { intros Hl. apply Hns. by constructor. }
      exists a, b. split_and!; [by right | by right | done].
    + exists x, y. split_and!; [by left | by right | done].
Qed.

Lemma article_comparable_dec (x y : ScoredArticle) :
  comparable article_lt x y ∨ ¬ comparable article_lt x y.
Proof.
  rewrite article_comparable_iff.
  destruct (decide (relevance_score x = relevance_score y)) as [Heq|]; [|by left; left].
  destruct (publish_date x) as [tx|], (publish_date y) as [ty|].
  - left. right. split; intros _; by eexists.
  - right. intros [?|[H _]]; [done|]. by destruct H as [? ?]; [eexists|].
  - right. intros [?|[_ H]]; [done|]. by destruct H as [? ?]; [eexists|].
  - left. by right.
Qed.

(** X9: the run raises nothing but [TypeError], and it raises exactly
    when two of the articles that matched have the same score, one with a
    publication date and one without. *)
Theorem run_raises_iff_mixed_dates (w : World) (c : Completion) (query : string) :
  (∀ e, fetch_and_filter_articles w c query = Raise e → e = TypeError)
  ∧ ((∃ e, fetch_and_filter_articles w c query = Raise e)
     ↔ ∃ a b, a ∈ matched w (PyStr.split (PyStr.lower query))
              ∧ b ∈ matched w (PyStr.split (PyStr.lower query))
              ∧ relevance_score a = relevance_score b
              ∧ is_Some (publish_date a) ∧ publish_date b = None).
Proof.
  assert (Htype : ∀ e, fetch_and_filter_articles w c query = Raise e → e = TypeError).
  { intros e He.
    destruct (fetch_and_filter_articles_rank w c query) as (l & _ & Hrank).
    rewrite Hrank in He. unfold rank in He. destruct l; [done|].
    destruct (sorted_reverse _ _ _) eqn:Hs; [done|].
    simpl in He. injection He as <-. by eapply sort_articles_raises. }
  split; [exact Htype|]. split.
  - intros [e He]. rewrite (Htype e He) in He.
    apply ranking_raises_iff in He.
    apply not_pairwise_exists in He as (a & b & Ha & Hb & Hab);
      [|apply article_comparable_dec].
    rewrite article_comparable_iff in Hab.
    assert (Heq : relevance_score a = relevance_score b).
    { destruct (decide (relevance_score a = relevance_score b)); [done|].
      destruct Hab. by left. }
    destruct (publish_date a) as [ta|] eqn:Hda, (publish_date b) as [tb|] eqn:Hdb.
    + destruct Hab. right. split; intros _; by eexists.
    + exists a, b. rewrite Hda, Hdb. split_and!; [done..| by eexists | done].
    + exists b, a. rewrite Hda, Hdb. split_and!; [done..| by eexists | done].
    + destruct Hab. by right.
  - intros (a & b & Ha & Hb & Heq & [ta Hda] & Hdb).
    exists TypeError. apply ranking_raises_iff. intros Hall.
    assert (Hne : a ≠ b) by (intros ->; congruence).
    pose proof (@pairwise_elem _ (comparable article_lt)
                  (comparable_sym article_lt) _ _ _ Hall Ha Hb Hne) as Hab.
    apply article_comparable_iff in Hab as [?|[Hab _]]; [done|].
    rewrite Hda, Hdb in Hab. by destruct Hab as [? ?]; [eexists|].
Qed.


Lemma entry_undated_no_key (entry : FeedEntry) :
  entry_publish_date entry = None → entry_sort_key entry = None.
Proof.
  unfold entry_publish_date, entry_sort_key.
  destruct (published_parsed entry) as [[p|]|], (updated_parsed entry) as [[u|]|];
    simpl; done.
Qed.

Lemma candidates_feed (w : World) (urls : list string) (e : FeedEntry) :
  e ∈ candidates w urls → ∃ url, url ∈ urls ∧ e ∈ feed_candidates w url.
Proof.
  unfold candidates. induction urls as [|u urls IH]; simpl.
  - intros He. by apply elem_of_nil in He.
  - intros [He|He]%elem_of_app.
    + exists u. split; [by left | done].
    + destruct (IH He) as (url & ? & ?). exists url. split; [by right | done].
Qed.

(** X11: an article without a publication date can only come from a feed
    whose window holds a single entry: in a window of two entries or more an
    entry without dates makes the sort of the feed raise. *)
Theorem undated_article_single_entry_window (w : World) (keywords : list string)
        (a : ScoredArticle) :
  a ∈ matched w keywords → publish_date a = None →
  ∃ url feed entry,
    url ∈ feed_urls ∧ feedparser_parse w url = Ok feed
    ∧ take max_articles_per_feed feed = [entry]
    ∧ entry_link entry = Some (link a).
Proof.
  intros (e & He & Ha)%matched_elem Hdate.
  apply fetch_article_content_some in Ha as (Hlink & _ & _ & _ & Hd & _).
  rewrite Hdate in Hd. symmetry in Hd. apply entry_undated_no_key in Hd.
  apply submitted_first in He as (i & l & Hi & _).
  apply list_elem_of_lookup_2, candidates_feed in Hi as (url & Hurl & Hin).
  unfold feed_candidates in Hin.
  destruct (feed_entries w url) as [es|] eqn:Hes; [|by apply elem_of_nil in Hin].
  unfold feed_entries in Hes.
  destruct (feedparser_parse w url) as [feed|] eqn:Hfeed; [|done]. simpl in Hes.
  assert (Hall : all_comparable entry_lt (take max_articles_per_feed feed)).
  { apply sort_entries_ok. by eexists. }
  apply sort_entries_perm in Hes. rewrite Hes in Hin.
  exists url, feed.
  destruct (take max_articles_per_feed feed) as [|x [|y r]] eqn:Hw.
  - by apply elem_of_nil in Hin.
  - apply list_elem_of_singleton in Hin as ->. by exists x.
  - apply all_comparable_entries_dated in Hall; [|simpl; lia].
    rewrite Forall_forall in Hall. specialize (Hall e Hin).
    rewrite Hd in Hall. by destruct Hall.
Qed.

(** X12: the sort of a feed and the scorer do not read the dates alike. An
    entry whose [published_parsed] is present and [None] has no sort key,
    whatever its [updated_parsed], while the scorer would date it by
    [updated_parsed]; in a window of two entries or more it takes the whole
    feed out of the run. *)
Theorem unparsed_published_date_skips_feed (w : World) (url : string)
        (feed : list FeedEntry) (entry : FeedEntry) :
  feedparser_parse w url = Ok feed →
  entry ∈ take max_articles_per_feed feed →
  (2 <= length (take max_articles_per_feed feed))%nat →
  published_parsed entry = Some None →
  entry_publish_date entry = dict_get (updated_parsed entry)
  ∧ entry_sort_key entry = None
  ∧ feed_entries w url = Raise TypeError
  ∧ feed_candidates w url = [].
Proof.
  intros Hfeed Hin Hlen Hpub.
  assert (Hkey : entry_sort_key entry = None).
  { unfold entry_sort_key. by rewrite Hpub. }
  assert (Hraise : feed_entries w url = Raise TypeError).
  { unfold feed_entries. rewrite Hfeed. simpl. by eapply sort_entries_undated. }
  split_and!; [|done|done|].
  - unfold entry_publish_date. by rewrite Hpub.
  - unfold feed_candidates. by rewrite Hraise.
Qed.

(** ** The recency bonus *)

Lemma Qltb_lt (a b : Q) : Qltb a b = true ↔ (a < b)%Q.
Proof.
  unfold Qltb. rewrite Qlt_alt. destruct (a ?= b)%Q; split; congruence.
Qed.

Lemma age_hours_lt (w : World) (l : string) (d : struct_time) (h : Z) :
  (age_hours w l d < inject_Z h)%Q ↔ (age_seconds w l d < inject_Z (h * 3600))%Q.
Proof.
  unfold age_hours, age_seconds. rewrite inject_Z_mult.
  set (x := (time_time w l - time_mktime w d)%Q).
  split; intros H.
  - apply (Qmult_lt_r _ _ (inject_Z 3600)) in H; [|done].
    unfold Qdiv in H. rewrite <- Qmult_assoc, (Qmult_comm (/ _)), Qmult_inv_r in H by done.
    by rewrite Qmult_1_r in H.
  - apply Qlt_shift_div_r; done.
Qed.

(** X13: the recency bonus as a function of the age in seconds: 5 below
    one day, which includes every date in the future of the clock, 3 from
    one day on and below seven days, 0 from seven days on and for an entry
    without a date. *)
Theorem recency_bonus_thresholds (w : World) (l : string) (d : struct_time) :
  let age := age_seconds w l d in
  ((age < inject_Z 86400)%Q → recency_of w l (Some d) = 5)
  ∧ ((inject_Z 86400 <= age)%Q → (age < inject_Z 604800)%Q →
     recency_of w l (Some d) = 3)
  ∧ ((inject_Z 604800 <= age)%Q → recency_of w l (Some d) = 0)
  ∧ ((time_time w l < time_mktime w d)%Q → recency_of w l (Some d) = 5)
  ∧ recency_of w l None = 0.
Proof.
  intros age. unfold recency_of.
  destruct (Qltb (age_hours w l d) (inject_Z 24)) eqn:H24;
    destruct (Qltb (age_hours w l d) (inject_Z 168)) eqn:H168.
  all: try apply Qltb_lt in H24; try apply Qltb_lt in H168.
  all: try (apply not_true_iff_false in H24; rewrite Qltb_lt in H24).
  all: try (apply not_true_iff_false in H168; rewrite Qltb_lt in H168).
  all: rewrite (age_hours_lt w l d 24) in H24;
       rewrite (age_hours_lt w l d 168) in H168;
       change (inject_Z (24 * 3600)) with (inject_Z 86400) in H24;
       change (inject_Z (168 * 3600)) with (inject_Z 604800) in H168;
       fold age in H24, H168.
  all: assert (H0 : (time_time w l < time_mktime w d)%Q → (age < inject_Z 86400)%Q)
         by (unfold age, age_seconds, inject_Z; intros ?; lra).
  all: clearbody age; split_and!; try done; intros; exfalso;
       try match goal with
           | Htime : (time_time _ _ < _)%Q |- _ => apply H0 in Htime
           end; unfold inject_Z in *; lra.
Qed.

(** * Properties of [email_agent.py] *)

Section EmailFacts.
Import Email.

(** ** [process_summarized_articles] *)

Lemma process_loop (l acc : list ArticleDict) :
  fold_left (fun processed_articles article =>
               let p := processed_article article in
               if has_required p then processed_articles ++ [p]
               else processed_articles) l acc
  = acc ++ omap (fun article =>
                   let p := processed_article article in
                   if has_required p then Some p else None) l.
Proof.
  revert acc. induction l as [|a l IH]; intros acc; simpl.
  - by rewrite app_nil_r.
  - rewrite IH. destruct (has_required (processed_article a)); [|done].
    by rewrite <- app_assoc.
Qed.

Lemma process_omap (l : list ArticleDict) :
  process_summarized_articles l
  = omap (fun article =>
            let p := processed_article article in
            if has_required p then Some p else None) l.
Proof. unfold process_summarized_articles. by rewrite process_loop. Qed.

Lemma processed_lookup (a : ArticleDict) :
  processed_article a !! "title" = Some (default (FStr "") (a !! "title"))
  ∧ processed_article a !! "summary" = Some (default (FStr "") (a !! "summary"))
  ∧ processed_article a !! "link" = Some (default (FStr "") (a !! "link"))
  ∧ processed_article a !! "source"
    = Some (default (FStr "Unknown Source") (a !! "source"))
  ∧ processed_article a !! "publish_date"
    = Some (default (FStr "") (a !! "publish_date")).
Proof. unfold processed_article. split_and!; by simplify_map_eq. Qed.

Lemma processed_dom (a : ArticleDict) : dom (processed_article a) = processed_keys.
Proof.
  unfold processed_article, processed_keys.
  rewrite !dom_insert_L, dom_singleton_L. set_solver.
Qed.

Lemma processed_idem (a : ArticleDict) :
  processed_article (processed_article a) = processed_article a.
Proof.
  destruct (processed_lookup a) as (Ht & Hs & Hl & Hsrc & Hp).
  unfold processed_article at 1. by rewrite Ht, Hs, Hl, Hsrc, Hp.
Qed.

Lemma process_elem (l : list ArticleDict) (p : ArticleDict) :
  p ∈ process_summarized_articles l
  ↔ ∃ article, article ∈ l ∧ p = processed_article article ∧ has_required p = true.
Proof.
  rewrite process_omap, list_elem_of_omap. split.
  - intros (a & Ha & Hp). simpl in Hp.
    destruct (has_required (processed_article a)) eqn:Hreq; [|done].
    injection Hp as <-. by exists a.
  - intros (a & Ha & -> & Hreq). exists a. split; [done|]. simpl. by rewrite Hreq.
Qed.

(** X14: every article returned by [process_summarized_articles] comes
    from an article of the input, has exactly the five keys title, summary,
    link, source and publish_date, and a true title, summary and link; the
    order of the input is kept and nothing is added. *)
Theorem processed_articles_valid (l : list ArticleDict) :
  (∀ p, p ∈ process_summarized_articles l →
     (∃ article, article ∈ l ∧ p = processed_article article)
     ∧ dom p = processed_keys
     ∧ ∀ key, key ∈ ["title"; "summary"; "link"] →
         ∃ v, p !! key = Some v ∧ field_truthy v = true)
  ∧ process_summarized_articles l `sublist_of` (processed_article <$> l).
Proof.
  rewrite process_omap. split.
  - rewrite <- process_omap. intros p (a & Ha & -> & Hreq)%process_elem.
    split_and!; [by exists a | apply processed_dom |].
    intros key Hkey. unfold has_required in Hreq.
    rewrite forallb_forall in Hreq.
    specialize (Hreq key (proj1 (list_elem_of_In _ _) Hkey)).
    destruct (processed_lookup a) as (Ht & Hs & Hl & _).
    repeat (apply elem_of_cons in Hkey as [->|Hkey];
            [eexists; split; [eassumption|]; by rewrite ?Ht, ?Hs, ?Hl in Hreq|]).
    by apply elem_of_nil in Hkey.
  - induction l as [|a l IH]; [done|]. rewrite fmap_cons. simpl.
    destruct (has_required (processed_article a)).
    + by apply sublist_skip.
    + by apply sublist_cons.
Qed.

Lemma omap_fixed {A : Type} (f : A → option A) (l : list A) :
  Forall (fun x => f x = Some x) l → omap f l = l.
Proof.
  induction 1 as [|x l Hx _ IH]; [done|].
  change (omap f (x :: l)) with (match f x with
                                 | Some y => y :: omap f l
                                 | None => omap f l
                                 end).
  by rewrite Hx, IH.
Qed.

Lemma processed_fixed (a : ArticleDict) :
  dom a = processed_keys → processed_article a = a.
Proof.
  intros Hdom. apply map_eq. intros key.
  assert (Hin : ∀ k, k ∈ processed_keys → ∃ v, a !! k = Some v).
  { intros k Hk. rewrite <- Hdom in Hk. by apply elem_of_dom in Hk. }
  destruct (decide (key ∈ processed_keys)) as [Hkey|Hkey].
  - destruct (processed_lookup a) as (Ht & Hs & Hl & Hsrc & Hp).
    destruct (Hin key Hkey) as [v Hv]. unfold processed_keys in Hkey.
    repeat (apply elem_of_union in Hkey as [Hkey|Hkey]);
      apply elem_of_singleton in Hkey as ->;
      rewrite ?Ht, ?Hs, ?Hl, ?Hsrc, ?Hp, Hv; done.
  - transitivity (@None field).
    + apply not_elem_of_dom. by rewrite processed_dom.
    + symmetry. apply not_elem_of_dom. by rewrite Hdom.
Qed.

(** X15: [process_summarized_articles] is idempotent, and it returns an
    article of the input as it is when that article has exactly the five
    keys and a true title, summary and link. *)
Theorem process_idempotent (l : list ArticleDict) :
  process_summarized_articles (process_summarized_articles l)
  = process_summarized_articles l
  ∧ ∀ a, dom a = processed_keys → has_required a = true →
         process_summarized_articles [a] = [a].
Proof.
  split.
  - rewrite (process_omap (process_summarized_articles l)).
    apply omap_fixed, Forall_forall. intros p Hp.
    apply process_elem in Hp as (a & _ & -> & Hreq).
    simpl. by rewrite processed_idem, Hreq.
  - intros a Hdom Hreq. rewrite process_omap. simpl.
    by rewrite (processed_fixed a Hdom), Hreq.
Qed.

(** ** The loops that build a page *)

Section PageLoop.
Context {A : Type} (block : A → res string).

Let step (html : res string) (article : A) : res string :=
  res_bind html (fun h => res_bind (block article) (fun b => Return (h +:+ b))).

Lemma page_loop_throw (l : list A) (e : exception) :
  fold_left step l (Throw e) = Throw e.
Proof. induction l; simpl; done. Qed.

Lemma page_loop_ok (l : list A) (h : string) :
  Forall (fun a => ∃ b, block a = Return b) l →
  ∃ h', fold_left step l (Return h) = Return h'.
Proof.
  intros Hl. revert h. induction Hl as [|a l [b Hb] _ IH]; intros h; simpl.
  - by exists h.
  - rewrite Hb. simpl. apply IH.
Qed.

Lemma page_loop_ok_inv (l : list A) (h h' : string) :
  fold_left step l (Return h) = Return h' →
  Forall (fun a => ∃ b, block a = Return b) l.
Proof.
  revert h. induction l as [|a l IH]; intros h; simpl; [constructor|].
  destruct (block a) as [b|e] eqn:Hb; simpl.
  - intros Hl. constructor; [by exists b | by eapply IH].
  - by rewrite page_loop_throw.
Qed.

Lemma page_loop_first_throw (pre post : list A) (a : A) (h : string) (e : exception) :
  Forall (fun a => ∃ b, block a = Return b) pre →
  block a = Throw e →
  fold_left step (pre ++ a :: post) (Return h) = Throw e.
Proof.
  intros Hpre Ha. rewrite fold_left_app.
  destruct (page_loop_ok pre h Hpre) as [h' ->]. simpl.
  rewrite Ha. simpl. apply page_loop_throw.
Qed.
End PageLoop.

Lemma subscript_ok (d : ArticleDict) (key : string) :
  (∃ v, subscript d key = Return v) ↔ key ∈ dom d.
Proof.
  unfold subscript. rewrite elem_of_dom.
  destruct (d !! key) as [v|]; split;
    first [by intros [? ?] | by intros _; eexists].
Qed.

Lemma page_article_ok (a : ArticleDict) :
  (∃ b, page_article a = Return b) ↔ processed_keys ⊆ dom a.
Proof.
  unfold page_article, subscript, processed_keys. split.
  - intros [b Hb].
    destruct (a !! "title") eqn:H1; [|done]. simpl in Hb.
    destruct (a !! "summary") eqn:H2; [|done]. simpl in Hb.
    destruct (a !! "link") eqn:H3; [|done]. simpl in Hb.
    destruct (a !! "source") eqn:H4; [|done]. simpl in Hb.
    destruct (a !! "publish_date") eqn:H5; [|done].
    intros key Hkey. apply elem_of_dom.
    repeat (apply elem_of_union in Hkey as [Hkey|Hkey]);
      apply elem_of_singleton in Hkey as ->; by eexists.
  - intros Hsub.
    assert (Hin : ∀ k, k ∈ processed_keys → ∃ v, a !! k = Some v).
    { intros k Hk. apply Hsub in Hk. by apply elem_of_dom in Hk. }
    destruct (Hin "title") as [? ->]; [set_solver|].
    destruct (Hin "summary") as [? ->]; [set_solver|].
    destruct (Hin "link") as [? ->]; [set_solver|].
    destruct (Hin "source") as [? ->]; [set_solver|].
    destruct (Hin "publish_date") as [? ->]; [set_solver|].
    simpl. by eexists.
Qed.

(** X16: [format_html_email] returns a page exactly when every article has
    the five keys, and raises [KeyError] otherwise; it therefore returns a
    page for every list that [process_summarized_articles] returns. *)
Theorem format_html_email_needs_five_keys (articles : list ArticleDict) :
  ((∃ html, format_html_email articles = Return html)
   ↔ Forall (fun a => processed_keys ⊆ dom a) articles)
  ∧ (∀ e, format_html_email articles = Throw e → ∃ key, e = KeyError key)
  ∧ ∀ l, ∃ html, format_html_email (process_summarized_articles l) = Return html.
Proof.
  assert (Hiff : ∀ arts, (∃ html, format_html_email arts = Return html)
                 ↔ Forall (fun a => processed_keys ⊆ dom a) arts).
  { intros arts. unfold format_html_email. split.
    - intros [html Hhtml].
      destruct (fold_left _ arts (Return page_head)) as [h|] eqn:Hloop; [|done].
      apply (page_loop_ok_inv page_article) in Hloop.
      eapply Forall_impl; [exact Hloop|]. intros a. apply page_article_ok.
    - intros Hall.
      destruct (page_loop_ok page_article arts page_head) as [h Hh].
      { eapply Forall_impl; [exact Hall|]. intros a. apply page_article_ok. }
      rewrite Hh. simpl. by eexists. }
  split; [apply Hiff|]. split.
  - unfold format_html_email.
    assert (Hblock : ∀ a e, page_article a = Throw e → ∃ key, e = KeyError key).
    { intros a e. unfold page_article, subscript.
      repeat (match goal with
              | |- context [a !! ?k] => destruct (a !! k); simpl; [|intros [= <-]; by eexists]
              end). done. }
    generalize page_head. induction articles as [|a arts IH]; intros h e; simpl.
    + done.
    + destruct (page_article a) as [b|e'] eqn:Hb; simpl.
      * apply IH.
      * rewrite (page_loop_throw page_article). simpl. intros [= <-]. by eapply Hblock.
  - intros l. apply Hiff, Forall_forall. intros p Hp.
    apply process_elem in Hp as (a & _ & -> & _). by rewrite processed_dom.
Qed.

(** ** [send_email] *)

Lemma mail_article_dict (d : ArticleDict) :
  match first_missing d with
  | Some key => mail_article (EDict d) = Throw (KeyError key)
  | None => ∃ b, mail_article (EDict d) = Return b
  end.
Proof.
  unfold first_missing, mail_keys, mail_article, subscript. simpl.
  destruct (d !! "title"); simpl; [|done].
  destruct (d !! "summary"); simpl; [|done].
  destruct (d !! "source"); simpl; [|done].
  destruct (d !! "link") eqn:Hlink; simpl.
  - destruct (d !! "publish_date") as [v|]; simpl; [|by eexists].
    destruct (field_truthy v); simpl; by eexists.
  - destruct (d !! "publish_date") as [v|]; simpl; [|done].
    by destruct (field_truthy v).
Qed.

Lemma mail_article_ok (e : element) :
  (∃ b, mail_article e = Return b) ↔ renderable e.
Proof.
  destruct e as [d|msg]; [|simpl].
  - unfold renderable. pose proof (mail_article_dict d) as Hd. split.
    + intros [b Hb]. destruct (first_missing d); [|done].
      rewrite Hd in Hb. done.
    + intros Hnone. by rewrite Hnone in Hd.
  - split; [by intros [? ?] | done].
Qed.


Lemma check_articles_ok (v : value) (items : list element) :
  check_articles v = Return items ↔ v = VList items ∧ items ≠ [].
Proof.
  destruct v as [[|x l]|b]; simpl; split; try done.
  - by intros [[= <-] ?].
  - by intros [= <-].
  - by intros [[= <-] _].
  - by intros [? _].
Qed.

Lemma check_credentials_ok (cfg : SmtpConfig) :
  check_credentials cfg = Return tt ↔ user cfg ≠ "" ∧ password cfg ≠ "".
Proof.
  unfold check_credentials.
  destruct (user cfg) as [|c1 u], (password cfg) as [|c2 p]; simpl; split;
    first [done | by intros [? ?]].
Qed.

Lemma prepare_ok (m : Mailer) (cfg : SmtpConfig) (a : argument)
      (items : list element) (msg : Message) :
  prepare m cfg a = Return (items, msg)
  ↔ parse_articles m a = Return (VList items) ∧ items ≠ []
    ∧ user cfg ≠ "" ∧ password cfg ≠ ""
    ∧ ∃ html, mail_html items = Return html ∧ msg = mail_message cfg html.
Proof.
  unfold prepare. split.
  - destruct (parse_articles m a) as [v|]; simpl; [|done].
    destruct (check_articles v) as [items'|] eqn:Hcheck; simpl; [|done].
    apply check_articles_ok in Hcheck as [-> Hne].
    destruct (check_credentials cfg) as [[]|] eqn:Hcred; simpl; [|done].
    apply check_credentials_ok in Hcred as [Hu Hp].
    destruct (mail_html items') as [html|] eqn:Hhtml; simpl; [|done].
    intros [= <- <-]. split_and!; [done..|]. by exists html.
  - intros (-> & Hne & Hu & Hp & html & Hhtml & ->). cbn [res_bind].
    destruct items as [|x l]; [done|]. cbn [check_articles res_bind].
    rewrite (proj2 (check_credentials_ok cfg)) by done. cbn [res_bind].
    by rewrite Hhtml.
Qed.



(** X18: nothing is sent to the server unless the argument, the
    credentials and every article passed the checks. An argument that is
    not a non-empty list gives the "Invalid articles data" error even when
    the credentials are missing too, and missing credentials give their
    error whatever the articles hold. *)
Theorem send_email_checks_before_connecting (m : Mailer) (cfg : SmtpConfig)
        (a : argument) :
  ((send_email m cfg a).2 = [] ↔ ∃ e, prepare m cfg a = Throw e)
  ∧ (∀ v, parse_articles m a = Return v →
          (∀ items, v = VList items → items = []) →
          send_email m cfg a
          = (Error "Invalid articles data: Expected a list of articles"
                   "ValueError" None, []))
  ∧ (∀ items, parse_articles m a = Return (VList items) → items ≠ [] →
              user cfg = "" ∨ password cfg = "" →
              send_email m cfg a
              = (Error "Email credentials not found. Please set SMTP_USER and SMTP_PASSWORD environment variables"
                       "ValueError" None, [])).
Proof.
  split_and!.
  - unfold send_email. destruct (prepare m cfg a) as [[items msg]|e]; simpl.
    + split; [|by intros [? ?]].
      intros Htrace. exfalso. revert Htrace. unfold smtp_session.
      destruct (smtp_connect m (server cfg) (port cfg)); simpl; [done|].
      destruct (smtp_exit m); simpl; [done|].
      by destruct ((smtp_body m cfg msg).2).
    + split; [by eexists | done].
  - intros v Hparse Hv. unfold send_email, prepare. rewrite Hparse. simpl.
    destruct v as [[|x l]|b]; simpl; try done.
    by specialize (Hv _ eq_refl).
  - intros items Hparse Hne Hcred. unfold send_email, prepare.
    rewrite Hparse. cbn [res_bind].
    destruct items as [|x l]; [done|]. cbn [check_articles res_bind].
    unfold check_credentials.
    destruct Hcred as [-> | ->]; simpl; [done|].
    by destruct (PyStr.truthy (user cfg)).
Qed.

(** The calls a run makes to the server. *)
Lemma send_email_trace_shapes (m : Mailer) (cfg : SmtpConfig) (a : argument) :
  let trace := (send_email m cfg a).2 in
  let connect := Connect (server cfg) (port cfg) in
  let login := Login (user cfg) (password cfg) in
  trace = []
  ∨ (trace = [connect] ∧ smtp_connect m (server cfg) (port cfg) ≠ None)
  ∨ (smtp_connect m (server cfg) (port cfg) = None
     ∧ ((trace = [connect; StartTLS; Exit] ∧ smtp_starttls m ≠ None)
        ∨ (smtp_starttls m = None
           ∧ ((trace = [connect; StartTLS; login; Exit]
               ∧ smtp_login m (user cfg) (password cfg) ≠ None)
              ∨ (smtp_login m (user cfg) (password cfg) = None
                 ∧ ∃ html, trace = [connect; StartTLS; login;
                                    SendMessage (mail_message cfg html); Exit]))))).
Proof.
  unfold send_email.
  destruct (prepare m cfg a) as [[items msg]|e] eqn:Hprep; [|by left].
  apply prepare_ok in Hprep as (_ & _ & _ & _ & html & _ & ->).
  assert (Hsnd : ∀ (s : list event * option exception) (r : EmailResult),
            (match s.2 with
             | Some e => (handle cfg e, s.1)
             | None => (r, s.1)
             end).2 = s.1).
  { intros [t [e|]] r; done. }
  cbv zeta. rewrite Hsnd. unfold smtp_session, smtp_body, use_tls.
  destruct (smtp_connect m (server cfg) (port cfg)) as [e|] eqn:Hc; simpl.
  { right. left. done. }
  right. right. split; [done|].
  destruct (smtp_starttls m) as [e|] eqn:Htls; simpl.
  { left. done. }
  right. split; [done|].
  destruct (smtp_login m (user cfg) (password cfg)) as [e|] eqn:Hlogin; simpl.
  { left. done. }
  right. split; [done|]. by exists html.
Qed.

(** X19: the calls made to the server follow the protocol: the user and
    the password are presented only after STARTTLS succeeded, a message is
    handed over at most once, only after the login succeeded and only to
    the fixed recipient, and a connection that was opened is always ended. *)
Theorem smtp_session_protocol (m : Mailer) (cfg : SmtpConfig) (a : argument) :
  let trace := (send_email m cfg a).2 in
  (∀ u pw, Login u pw ∈ trace →
     smtp_starttls m = None ∧ u = user cfg ∧ pw = password cfg
     ∧ trace !! 1%nat = Some StartTLS ∧ trace !! 2%nat = Some (Login u pw))
  ∧ (∀ msg, SendMessage msg ∈ trace →
       smtp_starttls m = None
       ∧ smtp_login m (user cfg) (password cfg) = None
       ∧ msg_to msg = "2022-bs-ai-006@tuf.edu.pk"
       ∧ msg_from msg = "News Agent <" +:+ user cfg +:+ ">")
  ∧ (length (filter (fun ev => is_send ev = true) trace) <= 1)%nat
  ∧ (smtp_connect m (server cfg) (port cfg) = None → trace ≠ [] →
     last trace = Some Exit).
Proof.
  intros trace. pose proof (send_email_trace_shapes m cfg a) as Hshape.
  cbv zeta in Hshape. fold trace in Hshape. clearbody trace.
  destruct Hshape as [->|[[-> Hc]|[Hc [[-> Htls]|[Htls [[-> Hl]|[Hl [html ->]]]]]]]].
  all: split_and!;
    [ intros u pw Hin | intros msg Hin | vm_compute; lia
    | intros Hc' Hne; first [done | reflexivity] ].
  all: repeat (apply elem_of_cons in Hin as [Hin|Hin];
               [first [ discriminate Hin
                      | injection Hin as -> ->; by split_and!
                      | injection Hin as ->; by split_and! ]|]).
  all: by apply elem_of_nil in Hin.
Qed.

Lemma mail_html_first_throw (items : list element) (i : nat) (e : element)
      (err : exception) :
  items !! i = Some e →
  (∀ j e', (j < i)%nat → items !! j = Some e' → renderable e') →
  mail_article e = Throw err →
  mail_html items = Throw err.
Proof.
  intros Hi Hpre He. unfold mail_html.
  rewrite <- (take_drop_middle items i e Hi).
  rewrite (page_loop_first_throw mail_article _ _ _ _ err); [done| |done].
  apply Forall_forall. intros e' He'. apply mail_article_ok.
  apply elem_of_take in He' as (j & Hj & Hlt). by eapply Hpre.
Qed.

(** X20: [send_email] does not give a missing key a default. When the
    first article that cannot be rendered is a dictionary, the error names
    the first of title, summary, source and link that it lacks, as a
    [KeyError]; when it is not a dictionary the error is its [TypeError].
    In both cases nothing is sent to the server. *)
Theorem send_email_first_bad_article (m : Mailer) (cfg : SmtpConfig) (a : argument)
        (items : list element) (i : nat) (e : element) :
  parse_articles m a = Return (VList items) →
  user cfg ≠ "" → password cfg ≠ "" →
  items !! i = Some e →
  (∀ j e', (j < i)%nat → items !! j = Some e' → renderable e') →
  match e with
  | EDict d =>
      ∀ key, first_missing d = Some key →
        send_email m cfg a
        = (Error ("Failed to send email: '" +:+ key +:+ "'") "KeyError" None, [])
  | ENotDict type_error =>
      send_email m cfg a
      = (Error ("Failed to send email: " +:+ type_error) "TypeError" None, [])
  end.
Proof.
  intros Hparse Hu Hp Hi Hpre.
  assert (Hne : items ≠ []) by (intros ->; by destruct i).
  assert (Hprep : ∀ err, mail_article e = Throw err → prepare m cfg a = Throw err).
  { intros err Herr. unfold prepare. rewrite Hparse. cbn [res_bind].
    destruct items as [|x l]; [done|]. cbn [check_articles res_bind].
    rewrite (proj2 (check_credentials_ok cfg)) by done. cbn [res_bind].
    by rewrite (mail_html_first_throw _ i e err). }
  destruct e as [d|type_error].
  - intros key Hkey. pose proof (mail_article_dict d) as Hd. rewrite Hkey in Hd.
    unfold send_email. by rewrite (Hprep _ Hd).
  - unfold send_email. by rewrite (Hprep _ eq_refl).
Qed.



End EmailFacts.

(** * The further properties on the scenarios *)

Section ExtrasOnScenarios.
Import Scenario DateScenario.


Lemma every_link_is_claimed_witness :
  dated_entry "Ocean warming again" "a" (day 2) ∈ candidates world_duplicate feed_urls
  ∧ ∃ first, first ∈ submitted world_duplicate ∧ entry_link first = Some "a".
Proof.
  assert (Hin : dated_entry "Ocean warming again" "a" (day 2)
                ∈ candidates world_duplicate feed_urls).
  { apply (list_elem_of_lookup_2 _ 1). vm_compute. reflexivity. }
  split; [exact Hin|].
  apply (every_link_is_claimed world_duplicate _ "a" Hin eq_refl). discriminate.
Defined.

Lemma latest_first_feed_kept_in_order_witness :
  feed_entries world_duplicate bbc
  = Ok [dated_entry "Ocean warming again" "a" (day 2); dated_entry "Ocean" "b" (day 1)].
Proof.
  apply (latest_first_feed_kept_in_order world_duplicate bbc
           [dated_entry "Ocean warming again" "a" (day 2);
            dated_entry "Ocean" "b" (day 1)] eq_refl).
  repeat constructor.
Defined.

Lemma ranking_idempotent_witness :
  ∃ s, sorted_reverse article_sort_key key_lt
         (matched world_duplicate ["ocean"; "warming"]) = Ok s
       ∧ sorted_reverse article_sort_key key_lt s = Ok s.
Proof.
  eexists. split; [vm_compute; reflexivity|].
  apply (ranking_idempotent (matched world_duplicate ["ocean"; "warming"])).
  vm_compute. reflexivity.
Defined.

Lemma output_shape_witness :
  ∃ out, fetch_and_filter_articles world_duplicate completion_in_order "ocean" = Ok out
         ∧ length out = Nat.min 10 (length (matched world_duplicate ["ocean"])).
Proof.
  eexists. split; [vm_compute; reflexivity|].
  destruct (output_shape world_duplicate completion_in_order "ocean" _ eq_refl)
    as [[Hnil _]|(_ & _ & Hlen & _)].
  - vm_compute in Hnil. discriminate Hnil.
  - exact Hlen.
Defined.

Lemma output_ranked_and_best_witness :
  ∃ out a b,
    fetch_and_filter_articles world_duplicate completion_in_order "ocean warming" = Ok out
    ∧ output_articles out !! 0%nat = Some a ∧ output_articles out !! 1%nat = Some b
    ∧ relevance_score b <= relevance_score a.
Proof.
  eexists _, _, _. split; [vm_compute; reflexivity|].
  split; [vm_compute; reflexivity|]. split; [vm_compute; reflexivity|].
  apply (proj1 (output_ranked_and_best world_duplicate completion_in_order
                  "ocean warming" _ eq_refl) 0%nat 1%nat); [lia | reflexivity..].
Defined.


Lemma undated_article_single_entry_window_witness :
  ∃ a, a ∈ matched world_mixed ["ocean"] ∧ publish_date a = None
       ∧ ∃ url feed entry,
           url ∈ feed_urls ∧ feedparser_parse world_mixed url = Ok feed
           ∧ take max_articles_per_feed feed = [entry]
           ∧ entry_link entry = Some (link a).
Proof.
  assert (Hin : {| title := "Ocean"; content := ""; link := "a";
                   publish_date := None; relevance_score := 10;
                   match_details := {| title_matches := 1; content_matches := 0;
                                       recency_bonus := 0 |} |}
                ∈ matched world_mixed ["ocean"]).
  { apply (list_elem_of_lookup_2 _ 0). vm_compute. reflexivity. }
  eexists. split; [exact Hin|]. split; [reflexivity|].
  exact (undated_article_single_entry_window world_mixed ["ocean"] _ Hin eq_refl).
Defined.

Lemma unparsed_published_date_skips_feed_witness :
  feed_candidates world_unparsed nyt = []
  ∧ entry_publish_date unparsed_entry = Some (day 3).
Proof.
  destruct (unparsed_published_date_skips_feed world_unparsed nyt
              [unparsed_entry; dated_entry "Ocean" "b" (day 1)] unparsed_entry
              eq_refl ltac:(left) ltac:(simpl; lia) eq_refl)
    as (Hdate & _ & _ & Hnone).
  split; [exact Hnone | exact Hdate].
Defined.

Lemma recency_bonus_thresholds_witness :
  (age_seconds world_recent "n" (mk_struct_time 2024 4 9 10 0 0 1 100 0)
   < inject_Z 86400)%Q
  ∧ recency_of world_recent "n" (Some (mk_struct_time 2024 4 9 10 0 0 1 100 0)) = 5.
Proof.
  assert (Hage : (age_seconds world_recent "n" (mk_struct_time 2024 4 9 10 0 0 1 100 0)
                  < inject_Z 86400)%Q).
  { unfold Qlt. vm_compute. reflexivity. }
  split; [exact Hage|].
  exact (proj1 (recency_bonus_thresholds world_recent "n"
                  (mk_struct_time 2024 4 9 10 0 0 1 100 0)) Hage).
Defined.

End ExtrasOnScenarios.

Section EmailOnScenarios.
Import Email MailScenario.


Lemma complete_article_processed :
  processed_article complete_article
  ∈ process_summarized_articles [complete_article; article_without_source].
Proof.
  apply process_elem. exists complete_article.
  split_and!; [left | done | vm_compute; reflexivity].
Qed.

Lemma complete_article_dom : dom complete_article = processed_keys.
Proof.
  unfold complete_article, processed_keys.
  rewrite !dom_insert_L, dom_singleton_L. set_solver.
Qed.

Lemma processed_articles_valid_witness :
  processed_article complete_article
  ∈ process_summarized_articles [complete_article; article_without_source]
  ∧ dom (processed_article complete_article) = processed_keys.
Proof.
  split; [exact complete_article_processed|].
  exact (proj1 (proj2 (proj1 (processed_articles_valid
                                [complete_article; article_without_source])
                         _ complete_article_processed))).
Defined.

Lemma process_idempotent_witness :
  (dom complete_article = processed_keys ∧ has_required complete_article = true)
  ∧ process_summarized_articles [complete_article] = [complete_article].
Proof.
  assert (Hreq : has_required complete_article = true) by (vm_compute; reflexivity).
  split; [split; [exact complete_article_dom | exact Hreq]|].
  exact (proj2 (process_idempotent []) complete_article complete_article_dom Hreq).
Defined.

Lemma format_html_email_needs_five_keys_witness :
  Forall (fun a => processed_keys ⊆ dom a) [complete_article]
  ∧ ∃ html, format_html_email [complete_article] = Return html.
Proof.
  assert (Hall : Forall (fun a => processed_keys ⊆ dom a) [complete_article]).
  { constructor; [by rewrite complete_article_dom | constructor]. }
  split; [exact Hall|].
  exact (proj2 (proj1 (format_html_email_needs_five_keys [complete_article])) Hall).
Defined.

Lemma send_email_checks_before_connecting_witness :
  send_email accepting_mailer (mk_config "smtp.gmail.com" 587 "" "")
    (ArgValue (VList []))
  = (Error "Invalid articles data: Expected a list of articles" "ValueError" None, []).
Proof.
  apply (proj1 (proj2 (send_email_checks_before_connecting accepting_mailer
                         (mk_config "smtp.gmail.com" 587 "" "")
                         (ArgValue (VList [])))) (VList []) eq_refl).
  by intros items [= <-].
Defined.

Lemma smtp_session_protocol_witness :
  ∃ msg, (send_email accepting_mailer gmail
            (ArgValue (VList [EDict complete_article]))).2 !! 3%nat
         = Some (SendMessage msg)
         ∧ msg_to msg = "2022-bs-ai-006@tuf.edu.pk".
Proof.
  eexists. split; [vm_compute; reflexivity|].
  apply (proj1 (proj2 (smtp_session_protocol accepting_mailer gmail
                         (ArgValue (VList [EDict complete_article]))))).
  apply (list_elem_of_lookup_2 _ 3). vm_compute. reflexivity.
Defined.

Lemma send_email_first_bad_article_witness :
  first_missing article_without_source = Some "source"
  ∧ send_email accepting_mailer gmail
      (ArgValue (VList [EDict complete_article; EDict article_without_source]))
    = (Error "Failed to send email: 'source'" "KeyError" None, []).
Proof.
  assert (Hkey : first_missing article_without_source = Some "source").
  { vm_compute. reflexivity. }
  assert (Hpre : ∀ j e', (j < 1)%nat →
            [EDict complete_article; EDict article_without_source] !! j = Some e' →
            renderable e').
  { intros [|j] e' Hj He'; [|lia]. injection He' as <-. vm_compute. reflexivity. }
  split; [exact Hkey|].
  exact (send_email_first_bad_article accepting_mailer gmail
           (ArgValue (VList [EDict complete_article; EDict article_without_source]))
           [EDict complete_article; EDict article_without_source] 1
           (EDict article_without_source) eq_refl
           ltac:(discriminate) ltac:(discriminate) eq_refl Hpre "source" Hkey).
Defined.


End EmailOnScenarios.
